(** * Quota-aware request dispatch of the chat application

    A shallow embedding of [rate_limiter.py] (the sliding-window limiter),
    [gemini_client.py] (the HTTP client and its classification of the
    provider's answers) and the [/api/chat] route of [app_alternative.py],
    with the properties the specification states about them.

    Conventions of the embedding
    - [time.time()] is an input of every operation that reads the clock; a
      Python float is modelled as an exact rational (type [Q]), so rounding
      of binary floating point is outside the model.
    - Python [int] values are [Z].
    - [defaultdict(deque)] is a [gmap string (list Q)] together with the
      insert-on-read behaviour of [defaultdict.__getitem__]; a deque is a
      list, oldest element first.
    - [print] calls are not modelled. *)

From Stdlib Require Import ZArith QArith Qround Qminmax Lqa Lia Bool Ascii String.
From stdpp Require Import gmap strings list sorting.

Set Warnings "-register-all,-clear-no-such-hyp".

Local Open Scope Z_scope.

(** ** Python numerics *)

Module PyNum.

(** [int(x)] of a float: truncation toward zero. *)
Definition py_int (x : Q) : Z := Z.quot (Qnum x) (Z.pos (Qden x)).

(** [a <= b] and [a < b] on floats, as booleans. *)
Definition py_le (a b : Q) : bool := Qle_bool a b.
Definition py_lt (a b : Q) : bool := negb (Qle_bool b a).

End PyNum.
Import PyNum.

(** ** rate_limiter.py *)

Record RateLimiter := mkRateLimiter {
  max_requests : Z;
  time_window : Z;
  requests : gmap string (list Q)
}.

(** [RateLimiter.__init__(self, max_requests: int = 10, time_window: int = 60)];
    an argument left out is [None] here. *)
Definition RateLimiter_init (mr tw : option Z) : RateLimiter :=
  mkRateLimiter (default 10 mr) (default 60 tw) ∅.

(** The module-level instance:
    [rate_limiter = RateLimiter(max_requests=5, time_window=60)]. *)
Definition rate_limiter : RateLimiter := RateLimiter_init (Some 5) (Some 60).

(** [self.requests[key]] on a [defaultdict(deque)]: a missing key is
    inserted with an empty deque before it is returned. *)
Definition requests_getitem (m : gmap string (list Q)) (key : string)
  : list Q * gmap string (list Q) :=
  match m !! key with
  | Some d => (d, m)
  | None => ([], <[key := []]> m)
  end.

(** [while request_times and request_times[0] <= bound: request_times.popleft()] *)
Fixpoint purge (bound : Q) (request_times : list Q) : list Q :=
  match request_times with
  | [] => []
  | t :: rest => if py_le t bound then purge bound rest else request_times
  end.

Definition set_requests (self : RateLimiter) (m : gmap string (list Q)) : RateLimiter :=
  mkRateLimiter (max_requests self) (time_window self) m.

(** [RateLimiter.is_allowed(self, key)], with [now = time.time()]. The deque
    is mutated in place, so the map holds the purged (and, on admission,
    extended) deque afterwards. *)
Definition is_allowed (self : RateLimiter) (key : string) (now : Q)
  : bool * RateLimiter :=
  let '(request_times, m) := requests_getitem (requests self) key in
  let request_times := purge (now - inject_Z (time_window self))%Q request_times in
  if Z.of_nat (length request_times) <? max_requests self
  then (true, set_requests self (<[key := request_times ++ [now]]> m))
  else (false, set_requests self (<[key := request_times]> m)).

(** [RateLimiter.get_retry_after(self, key)]; the clock is read only when the
    deque is not empty. *)
Definition get_retry_after (self : RateLimiter) (key : string) (now : Q)
  : Z * RateLimiter :=
  let '(d, m) := requests_getitem (requests self) key in
  match d with
  | [] => (0, set_requests self m)
  | oldest_request :: _ =>
      let retry_after :=
        py_int (inject_Z (time_window self) - (now - oldest_request))%Q in
      (Z.max 0 retry_after, set_requests self m)
  end.

(** *** Sequences of calls on one limiter *)

Inductive call :=
| IsAllowed (key : string) (now : Q)
| GetRetryAfter (key : string) (now : Q).

Inductive answer :=
| ABool (b : bool)
| AInt (z : Z).

Definition call_time (c : call) : Q :=
  match c with IsAllowed _ now | GetRetryAfter _ now => now end.

Definition step (self : RateLimiter) (c : call) : answer * RateLimiter :=
  match c with
  | IsAllowed key now =>
      let '(b, self') := is_allowed self key now in (ABool b, self')
  | GetRetryAfter key now =>
      let '(z, self') := get_retry_after self key now in (AInt z, self')
  end.

Fixpoint run (self : RateLimiter) (cs : list call) : list answer * RateLimiter :=
  match cs with
  | [] => ([], self)
  | c :: cs' =>
      let '(a, self') := step self c in
      let '(r, self'') := run self' cs' in
      (a :: r, self'')
  end.

(** The timestamps of the checks of [key] that were admitted, in call order. *)
Fixpoint admitted (self : RateLimiter) (key : string) (cs : list call) : list Q :=
  match cs with
  | [] => []
  | c :: cs' =>
      let '(a, self') := step self c in
      match c, a with
      | IsAllowed k now, ABool true =>
          if decide (k = key) then now :: admitted self' key cs'
          else admitted self' key cs'
      | _, _ => admitted self' key cs'
      end
  end.

(** The clock never goes back between consecutive calls. *)
Fixpoint times_from (t : Q) (cs : list call) : bool :=
  match cs with
  | [] => true
  | c :: cs' => py_le t (call_time c) && times_from (call_time c) cs'
  end.

Definition monotone_clock (cs : list call) : bool :=
  match cs with
  | [] => true
  | c :: cs' => times_from (call_time c) cs'
  end.

(** [t] lies in the trailing interval [(T - width, T]]. *)
Definition in_trailing (width : Z) (T t : Q) : bool :=
  py_lt (T - inject_Z width)%Q t && py_le t T.

(** The window of [key]; a key never seen has no admissions on record. *)
Definition window (self : RateLimiter) (key : string) : list Q :=
  default [] (requests self !! key).

(** ** Python values and exceptions *)

(** A decoded JSON document, which is what [response.json()] and Flask's
    [request.get_json()] return; [JNull] is Python's [None]. A [dict] keeps
    its items in insertion order with distinct keys. Strings are sequences
    of code points below 256, one [ascii] each. *)
Inductive json :=
| JNull
| JBool (b : bool)
| JNum (q : Q)
| JStr (s : string)
| JArr (items : list json)
| JObj (fields : list (string * json)).

(** The exception classes the handlers of the source tell apart:
    [requests.exceptions.RequestException] (connection errors, timeouts)
    and every other [Exception]. *)
Inductive exn :=
| RequestException
| KeyError
| IndexError
| TypeError
| AttributeError
| OtherException.

Definition is_request_exception (e : exn) : bool :=
  match e with RequestException => true | _ => false end.

(** A computation that returns or raises. *)
Inductive py (A : Type) :=
| Ok (a : A)
| Raise (e : exn).
Arguments Ok {A} a.
Arguments Raise {A} e.

Definition py_bind {A B} (m : py A) (k : A -> py B) : py B :=
  match m with
  | Ok a => k a
  | Raise e => Raise e
  end.

Declare Scope py_scope.
Delimit Scope py_scope with py.
Notation "x <- m ;; k" := (py_bind m (fun x => k))
  (at level 100, m at next level, right associativity) : py_scope.
Local Open Scope py_scope.

Module PyObj.

(** [d[key]] on the items of a dict. *)
Fixpoint lookup_field (key : string) (fields : list (string * json)) : option json :=
  match fields with
  | [] => None
  | (k, v) :: rest => if String.eqb k key then Some v else lookup_field key rest
  end.

(** [needle in s] for a non-empty [needle] and a string [s]. *)
Definition is_substring (needle s : string) : bool :=
  match String.index 0 needle s with
  | Some _ => true
  | None => false
  end.

(** [needle in container], [needle] a string literal. *)
Definition contains (needle : string) (container : json) : py bool :=
  match container with
  | JObj fields =>
      Ok (match lookup_field needle fields with Some _ => true | None => false end)
  | JArr items =>
      Ok (existsb (fun v => match v with JStr s => String.eqb s needle | _ => false end)
            items)
  | JStr s => Ok (is_substring needle s)
  | JNull | JBool _ | JNum _ => Raise TypeError
  end.

(** [len(v)] *)
Definition len (v : json) : py Z :=
  match v with
  | JObj fields => Ok (Z.of_nat (length fields))
  | JArr items => Ok (Z.of_nat (length items))
  | JStr s => Ok (Z.of_nat (String.length s))
  | JNull | JBool _ | JNum _ => Raise TypeError
  end.

(** [v[key]], [key] a string literal. *)
Definition getitem (v : json) (key : string) : py json :=
  match v with
  | JObj fields =>
      match lookup_field key fields with
      | Some x => Ok x
      | None => Raise KeyError
      end
  | _ => Raise TypeError
  end.

(** [v[0]]; the keys of a decoded JSON object are strings, so [0] is never
    one of them. *)
Definition getitem0 (v : json) : py json :=
  match v with
  | JArr items =>
      match items with
      | x :: _ => Ok x
      | [] => Raise IndexError
      end
  | JStr s =>
      match s with
      | String c _ => Ok (JStr (String c EmptyString))
      | EmptyString => Raise IndexError
      end
  | JObj _ => Raise KeyError
  | JNull | JBool _ | JNum _ => Raise TypeError
  end.

(** [v.get(key, dflt)]: only a dict has the method. *)
Definition get (v : json) (key : string) (dflt : json) : py json :=
  match v with
  | JObj fields => Ok (default dflt (lookup_field key fields))
  | _ => Raise AttributeError
  end.

(** Whitespace in the sense of [str.isspace], among code points below 256. *)
Definition isspace (c : ascii) : bool :=
  let n := nat_of_ascii c in
  ((9 <=? n) && (n <=? 13) || (28 <=? n) && (n <=? 32)
   || (n =? 133) || (n =? 160))%nat.

Fixpoint lstrip (s : string) : string :=
  match s with
  | EmptyString => EmptyString
  | String c rest => if isspace c then lstrip rest else s
  end.

(** [s.strip()] *)
Definition strip (s : string) : string :=
  String.rev (lstrip (String.rev (lstrip s))).

(** [v.strip()]: only a string has the method. *)
Definition strip_method (v : json) : py string :=
  match v with
  | JStr s => Ok (strip s)
  | _ => Raise AttributeError
  end.

End PyObj.

(** ** gemini_client.py *)

(** What the client reads of the object [requests.post] returns:
    [status_code], the outcome of [json()] (which raises on a body that is
    not JSON) and [text]. *)
Record response := mkResponse {
  status_code : Z;
  json_ : py json;
  text : string
}.

Definition quota_message : string :=
  "I'm sorry, I've reached my daily limit. Please try again later.".
Definition api_error_message : string :=
  "I'm sorry, I'm having trouble processing your request right now.".
Definition request_error_message : string :=
  "I'm sorry, I'm having trouble connecting to the AI service.".
Definition unexpected_error_message : string :=
  "I'm sorry, something went wrong. Please try again.".

(** The body of the [try] block of [GeminiClient.generate_content], given
    what [requests.post] did. Leaving the [if] nest of the 200 branch
    without a [return] ends the function, which returns [None]. *)
Definition generate_content_try (posted : py response) : py json :=
  response <- posted ;;
  if status_code response =? 200 then
    data <- json_ response ;;
    has_candidates <- PyObj.contains "candidates" data ;;
    nonempty <-
      (if has_candidates : bool then
         candidates <- PyObj.getitem data "candidates" ;;
         n <- PyObj.len candidates ;;
         Ok (0 <? n)
       else Ok false) ;;
    if nonempty : bool then
      candidates <- PyObj.getitem data "candidates" ;;
      candidate <- PyObj.getitem0 candidates ;;
      has_content <- PyObj.contains "content" candidate ;;
      has_parts <-
        (if has_content : bool then
           content <- PyObj.getitem candidate "content" ;;
           PyObj.contains "parts" content
         else Ok false) ;;
      if has_parts : bool then
        content <- PyObj.getitem candidate "content" ;;
        parts <- PyObj.getitem content "parts" ;;
        part <- PyObj.getitem0 parts ;;
        PyObj.getitem part "text"
      else Ok JNull
    else Ok JNull
  else if status_code response =? 429 then
    error_data <- json_ response ;;
    error <- PyObj.get error_data "error" (JObj []) ;;
    _ <- PyObj.get error "message" (JStr "Unknown error") ;;
    Ok (JStr quota_message)
  else
    Ok (JStr api_error_message).

(** [GeminiClient.generate_content(self, text)]: [post text] is what
    [requests.post] does with the payload built from [text] (URL, headers
    and the 30 second timeout are fixed). *)
Definition generate_content (post : string -> py response) (text : string) : json :=
  match generate_content_try (post text) with
  | Ok v => v
  | Raise e =>
      if is_request_exception e then JStr request_error_message
      else JStr unexpected_error_message
  end.

(** The place of the generated text in a provider answer,
    [data["candidates"][0]["content"]["parts"][0]["text"]], followed through
    objects and arrays only; [None] when the path does not resolve, that
    is, when the field is missing. *)
Definition field (key : string) (v : json) : option json :=
  match v with
  | JObj fields => PyObj.lookup_field key fields
  | _ => None
  end.

Definition first_item (v : json) : option json :=
  match v with
  | JArr (x :: _) => Some x
  | _ => None
  end.

Definition generated_text (data : json) : option json :=
  candidates ← field "candidates" data;
  candidate ← first_item candidates;
  content ← field "content" candidate;
  parts ← field "parts" content;
  part ← first_item parts;
  field "text" part.


(** A Python string that is not empty. *)
Definition nonempty_str (v : json) : bool :=
  match v with
  | JStr (String _ _) => true
  | _ => false
  end.

(** ** app_alternative.py *)

(** The application object as the [/api/chat] route uses it:
    [app.gemini_client] ([None] without an API key; otherwise the client,
    given by what its HTTP call does) and the [db] object of [models.py],
    of which the route reads [db.connection] and calls [db.save_message]. *)
Record App := mkApp {
  gemini_client : option (string -> py response);
  db_connection : bool;
  db_save_message : string -> json -> py unit
}.

(** The process-wide state around one request: the module-level limiter of
    [rate_limiter.py], the prompts handed to the external client so far and
    the exchanges [db.save_message] accepted. *)
Record world := mkWorld {
  limiter : RateLimiter;
  api_calls : list string;
  saved : list (string * json)
}.

(** A Flask reply [(jsonify(body), status)]. *)
Record reply := mkReply {
  reply_status : Z;
  reply_body : json
}.

Definition nl : string := String (ascii_of_nat 10) EmptyString.

(** The f-string built around the user's message. *)
Definition make_prompt (user_message : string) : string :=
  String.append
    "You are a helpful AI assistant. Please respond to the following message in a friendly and informative way:"
    (String.append nl (String.append nl (String.append "User: "
    (String.append user_message (String.append nl (String.append nl
    "Please keep your response concise and helpful.")))))).

Definition no_client_message : string :=
  "AI service is not available. Please check the API key configuration.".

(** The body of the outer [try] of [chat]. [get_json] is the outcome of
    [request.get_json()], [timestamp] is [datetime.now().isoformat()].
    [generate_content] catches every exception itself, so the inner
    [except] around it never runs. Every statement that can raise comes
    before the first effect. *)
Definition chat_try (a : App) (get_json : py json) (timestamp : string) (w : world)
  : py (reply * world) :=
  data <- get_json ;;
  message <- PyObj.get data "message" (JStr "") ;;
  user_message <- PyObj.strip_method message ;;
  if String.eqb user_message "" then
    Ok (mkReply 400 (JObj [("error", JStr "Message cannot be empty")]), w)
  else
    let '(ai_response, w1) :=
      match gemini_client a with
      | Some post =>
          let prompt := make_prompt user_message in
          (generate_content post prompt,
           mkWorld (limiter w) (api_calls w ++ [prompt]) (saved w))
      | None => (JStr no_client_message, w)
      end in
    let w2 :=
      if db_connection a then
        match db_save_message a user_message ai_response with
        | Ok _ => mkWorld (limiter w1) (api_calls w1)
                    (saved w1 ++ [(user_message, ai_response)])
        | Raise _ => w1
        end
      else w1 in
    Ok (mkReply 200 (JObj [("user_message", JStr user_message);
                           ("ai_response", ai_response);
                           ("timestamp", JStr timestamp)]), w2).

(** [chat()], the handler of [POST /api/chat]. *)
Definition chat (a : App) (get_json : py json) (timestamp : string) (w : world)
  : reply * world :=
  match chat_try a get_json timestamp w with
  | Ok r => r
  | Raise _ => (mkReply 500 (JObj [("error", JStr "Internal server error")]), w)
  end.

(** The timestamps of [ts] are pairwise less than [width] apart. *)
Definition close_together (width : Z) (ts : list Q) : Prop :=
  Forall (fun x => Forall (fun y => (x - y < inject_Z width)%Q) ts) ts.

(** Consecutive checks of one key at the times [ts]. *)
Definition checks (key : string) (ts : list Q) : list call :=
  map (IsAllowed key) ts.

(** The wait the specification gives for a window whose oldest entry is
    [oldest]: [max(0, window_seconds - (now - oldest))], a number of seconds
    that need not be whole. *)
Definition spec_retry_after (width : Z) (now oldest : Q) : Q :=
  Qmax 0 (inject_Z width - (now - oldest)).

(** Number of timestamps of [A] inside [(T - width, T]]. *)
Definition inside (width : Z) (T : Q) (A : list Q) : nat :=
  length (List.filter (in_trailing width T) A).

(** The invariant that links the admissions [A] made so far for [key] with
    the window the limiter holds, when the clock has reached [tl]: the
    window is the tail of [A], what is no longer in it is at least [width]
    old, and no trailing interval holds more than [limit] admissions. *)
Definition linked (key : string) (limit width : Z)
    (self : RateLimiter) (tl : Q) (A : list Q) : Prop :=
  max_requests self = limit
  /\ time_window self = width
  /\ (exists gone, A = gone ++ window self key
        /\ Forall (fun x => (x <= tl - inject_Z width)%Q) gone)
  /\ (length (window self key) <= Z.to_nat limit)%nat
  /\ forall T, (inside width T A <= Z.to_nat limit)%nat.

(** No timestamp in the window of [key] is later than the clock [tl]. *)
Definition in_the_past (key : string) (self : RateLimiter) (tl : Q) : Prop :=
  Forall (fun x => (x <= tl)%Q) (window self key).

(** The time left at [now] until [oldest] leaves the window. *)
Definition remaining (self : RateLimiter) (oldest now : Q) : Q :=
  (inject_Z (time_window self) - (now - oldest))%Q.

(** The 200 branch of [generate_content_try] on a decoded body. *)
Definition success_branch (data : json) : py json :=
  generate_content_try (Ok (mkResponse 200 (Ok data) "")).

(** ** Further definitions: the rest of the limiter's behaviour *)

Definition call_key (c : call) : string :=
  match c with IsAllowed key _ | GetRetryAfter key _ => key end.

(** [c] is an admission check of [key]. *)
Definition is_check_of (key : string) (c : call) : bool :=
  match c with
  | IsAllowed k _ => bool_decide (k = key)
  | GetRetryAfter _ _ => false
  end.

(** The answers [is_allowed] gave to the checks of [key], in call order. *)
Fixpoint verdicts (self : RateLimiter) (key : string) (cs : list call) : list bool :=
  match cs with
  | [] => []
  | c :: cs' =>
      let '(a, self') := step self c in
      match c, a with
      | IsAllowed k _, ABool b =>
          if decide (k = key) then b :: verdicts self' key cs'
          else verdicts self' key cs'
      | _, _ => verdicts self' key cs'
      end
  end.

(** Two limiters agree on [key]: same configuration, same window. *)
Definition agree_on (key : string) (s1 s2 : RateLimiter) : Prop :=
  max_requests s1 = max_requests s2
  /\ time_window s1 = time_window s2
  /\ window s1 key = window s2 key.

(** The window is in ascending order and nothing in it is later than [tl]. *)
Definition ascending_past (key : string) (self : RateLimiter) (tl : Q) : Prop :=
  StronglySorted Qle (window self key)
  /\ Forall (fun x => (x <= tl)%Q) (window self key).

(** The admissions [A] made so far for [key] and the window agree when the
    clock has reached [tl]: the window is the tail of [A], in ascending
    order and not in the future, and what was dropped from it is at least
    [time_window] old. *)
Definition recorded (key : string) (self : RateLimiter) (tl : Q) (A : list Q) : Prop :=
  (exists gone, A = gone ++ window self key
     /\ Forall (fun x => (x <= tl - inject_Z (time_window self))%Q) gone)
  /\ ascending_past key self tl.

(** ** Further definitions: iteration and [get_available_models] *)

(** The one-character strings a [for] loop over a string yields. *)
Fixpoint chars (s : string) : list json :=
  match s with
  | EmptyString => []
  | String c rest => JStr (String c EmptyString) :: chars rest
  end.

(** [iter(v)]: the items of a list, the characters of a string, the keys
    of a dict; nothing else is iterable. *)
Definition py_iter (v : json) : py (list json) :=
  match v with
  | JArr items => Ok items
  | JStr s => Ok (chars s)
  | JObj fields => Ok (map (fun kv => JStr kv.1) fields)
  | JNull | JBool _ | JNum _ => Raise TypeError
  end.

(** [[f(x) for x in items]]: in order, stopping at the first exception. *)
Fixpoint py_map {A B} (f : A -> py B) (items : list A) : py (list B) :=
  match items with
  | [] => Ok []
  | x :: rest =>
      y <- f x ;;
      ys <- py_map f rest ;;
      Ok (y :: ys)
  end.

(** [model['name']], the expression of the list comprehension. *)
Definition name_of (model : json) : py json := PyObj.getitem model "name".

(** The body of the [try] block of [GeminiClient.get_available_models],
    given what [requests.get] did. *)
Definition get_available_models_try (got : py response) : py (list json) :=
  response <- got ;;
  if status_code response =? 200 then
    data <- json_ response ;;
    models <- PyObj.get data "models" (JArr []) ;;
    items <- py_iter models ;;
    py_map name_of items
  else
    Ok [].

(** [GeminiClient.get_available_models(self)]. *)
Definition get_available_models (got : py response) : list json :=
  match get_available_models_try got with
  | Ok names => names
  | Raise _ => []
  end.

(** The names of the entries of a well-formed model list: every entry an
    object with a [name]. *)
Fixpoint model_names (items : list json) : option (list json) :=
  match items with
  | [] => Some []
  | JObj fields :: rest =>
      match PyObj.lookup_field "name" fields, model_names rest with
      | Some n, Some ns => Some (n :: ns)
      | _, _ => None
      end
  | _ :: _ => None
  end.

(** ** Further definitions: blank messages *)

(** Every character of [s] is whitespace. *)
Fixpoint all_space (s : string) : bool :=
  match s with
  | EmptyString => true
  | String c rest => PyObj.isspace c && all_space rest
  end.

(** The first character of [s], if any, is not whitespace. *)
Definition starts_clean (s : string) : bool :=
  match s with
  | EmptyString => true
  | String c _ => negb (PyObj.isspace c)
  end.

(** * Properties *)

(** ** The scenarios of the specification, run on the model *)

Example generate_content_success :
  generate_content
    (fun _ => Ok (mkResponse 200
       (Ok (JObj [("candidates",
          JArr [JObj [("content",
            JObj [("parts", JArr [JObj [("text", JStr "Hi there")]])])]])])) ""))
    "Hello"
  = JStr "Hi there".
Proof. vm_compute. reflexivity. Qed.

Example generate_content_quota :
  generate_content
    (fun _ => Ok (mkResponse 429
       (Ok (JObj [("error", JObj [("message", JStr "Quota exceeded")])])) ""))
    "Hello"
  = JStr quota_message.
Proof. vm_compute. reflexivity. Qed.

Example generate_content_timeout :
  generate_content (fun _ => Raise RequestException) "Hello"
  = JStr request_error_message.
Proof. vm_compute. reflexivity. Qed.

Example chat_blank_message :
  (chat (mkApp (Some (fun _ => Raise RequestException)) false (fun _ _ => Ok tt))
     (Ok (JObj [("message", JStr "   ")])) "2024-01-01T00:00:00"
     (mkWorld rate_limiter [] [])).1
  = mkReply 400 (JObj [("error", JStr "Message cannot be empty")]).
Proof. vm_compute. reflexivity. Qed.

(** The interval of C1 is open on the left: six admissions can lie
    in the closed interval from 0 to 60. *)
Example six_admissions_in_a_closed_interval :
  admitted rate_limiter "u1"
    [IsAllowed "u1" 0; IsAllowed "u1" 0; IsAllowed "u1" 0; IsAllowed "u1" 0;
     IsAllowed "u1" 0; IsAllowed "u1" 60]%Q
  = [0; 0; 0; 0; 0; 60]%Q.
Proof. vm_compute. reflexivity. Qed.

Example is_allowed_burst :
  (run rate_limiter
     [IsAllowed "u1" 0; IsAllowed "u1" 0; IsAllowed "u1" 0; IsAllowed "u1" 0;
      IsAllowed "u1" 0; IsAllowed "u1" 1; GetRetryAfter "u1" 1;
      IsAllowed "u1" 61]%Q).1
  = [ABool true; ABool true; ABool true; ABool true; ABool true;
     ABool false; AInt 59; ABool true].
Proof. vm_compute. reflexivity. Qed.

(** ** Truncation *)

Section Truncation.

Lemma py_int_floor (x : Q) : Z.max 0 (py_int x) = Z.max 0 (Qfloor x).
Proof.
  destruct x as [a b]; unfold py_int; simpl.
  destruct (Z_lt_le_dec a 0) as [Hneg | Hpos].
  - assert (Hq : a ÷ Z.pos b <= 0).
    { pose proof (Z.quot_pos (- a) (Z.pos b)) as Hp.
      rewrite Z.quot_opp_l in Hp by lia. lia. }
    assert (Hd : a / Z.pos b < 0) by (apply Z.div_lt_upper_bound; lia).
    lia.
  - rewrite Z.quot_div_nonneg by lia. reflexivity.
Qed.

Lemma retry_nonneg (x : Q) : 0 <= Z.max 0 (py_int x).
Proof. lia. Qed.

Lemma retry_le (x : Q) (n : Z) :
  0 <= n -> (x <= inject_Z n)%Q -> Z.max 0 (py_int x) <= n.
Proof.
  intros Hn Hx. rewrite py_int_floor.
  apply Qfloor_resp_le in Hx. rewrite Qfloor_Z in Hx. lia.
Qed.

Lemma retry_mono (x y : Q) :
  (x <= y)%Q -> Z.max 0 (py_int x) <= Z.max 0 (py_int y).
Proof.
  intros Hxy. rewrite !py_int_floor.
  apply Qfloor_resp_le in Hxy. lia.
Qed.

Lemma retry_pos_iff (x : Q) : 0 < Z.max 0 (py_int x) <-> (1 <= x)%Q.
Proof.
  rewrite py_int_floor. split.
  - intros H. assert (H1 : 1 <= Qfloor x) by lia.
    pose proof (Qfloor_le x) as Hle.
    assert (Hq : (inject_Z 1 <= inject_Z (Qfloor x))%Q)
      by (rewrite <- Zle_Qle; exact H1).
    change (inject_Z 1) with 1%Q in Hq. lra.
  - intros H. apply Qfloor_resp_le in H.
    change 1%Q with (inject_Z 1) in H. rewrite Qfloor_Z in H. lia.
Qed.

End Truncation.

Lemma py_le_spec (a b : Q) : py_le a b = true <-> (a <= b)%Q.
Proof. apply Qle_bool_iff. Qed.

Lemma py_lt_spec (a b : Q) : py_lt a b = true <-> (a < b)%Q.
Proof.
  unfold py_lt. rewrite negb_true_iff, <- not_true_iff_false, Qle_bool_iff.
  split; [apply Qnot_le_lt | apply Qlt_not_le].
Qed.

Lemma in_trailing_spec (W : Z) (T t : Q) :
  in_trailing W T t = true <-> (T - inject_Z W < t)%Q /\ (t <= T)%Q.
Proof.
  unfold in_trailing. rewrite andb_true_iff, py_lt_spec, py_le_spec. tauto.
Qed.

(** What [purge] drops is stale, and it only drops from the front. *)
Lemma purge_split (b : Q) (w : list Q) :
  exists dropped, w = dropped ++ purge b w
                  /\ Forall (fun x => (x <= b)%Q) dropped.
Proof.
  induction w as [|t w IH]; simpl.
  - exists []. split; [reflexivity | constructor].
  - destruct (py_le t b) eqn:E.
    + destruct IH as (d & Hw & Hd). exists (t :: d). split.
      * simpl. f_equal. exact Hw.
      * constructor; [apply py_le_spec; exact E | exact Hd].
    + exists []. split; [reflexivity | constructor].
Qed.

Lemma purge_length (b : Q) (w : list Q) :
  (length (purge b w) <= length w)%nat.
Proof.
  destruct (purge_split b w) as (d & Hw & _).
  rewrite Hw at 2. rewrite length_app. lia.
Qed.

(** Nothing is dropped when the oldest entry is still fresh. *)
Lemma purge_fresh (b t : Q) (w : list Q) :
  (b < t)%Q -> purge b (t :: w) = t :: w.
Proof.
  intros H. simpl. destruct (py_le t b) eqn:E; [|reflexivity].
  apply py_le_spec in E. lra.
Qed.

(** Everything is dropped when every entry is stale. *)
Lemma purge_all (b : Q) (w : list Q) :
  Forall (fun x => (x <= b)%Q) w -> purge b w = [].
Proof.
  induction 1 as [|t w Ht _ IH]; simpl; [reflexivity|].
  apply py_le_spec in Ht. rewrite Ht. exact IH.
Qed.

(** ** The limiter's state after a call *)

Section LimiterFrame.

Variable self : RateLimiter.
Variables (key : string) (now : Q).

Lemma requests_getitem_window :
  (requests_getitem (requests self) key).1 = window self key.
Proof.
  unfold requests_getitem, window.
  destruct (requests self !! key); reflexivity.
Qed.

Lemma is_allowed_config :
  max_requests (is_allowed self key now).2 = max_requests self
  /\ time_window (is_allowed self key now).2 = time_window self.
Proof.
  unfold is_allowed.
  destruct (requests_getitem (requests self) key) as [d m].
  destruct (_ <? _); split; reflexivity.
Qed.

Lemma get_retry_after_config :
  max_requests (get_retry_after self key now).2 = max_requests self
  /\ time_window (get_retry_after self key now).2 = time_window self.
Proof.
  unfold get_retry_after.
  destruct (requests_getitem (requests self) key) as [[|t d] m];
    split; reflexivity.
Qed.

(** The answer of [is_allowed] and the window it leaves behind. *)
Lemma is_allowed_window :
  let kept := purge (now - inject_Z (time_window self))%Q (window self key) in
  let ok := Z.of_nat (length kept) <? max_requests self in
  (is_allowed self key now).1 = ok
  /\ window (is_allowed self key now).2 key = (if ok then kept ++ [now] else kept).
Proof.
  unfold is_allowed, window, requests_getitem.
  destruct (requests self !! key) as [d|] eqn:E; simpl;
    destruct (_ <? _); simpl; rewrite lookup_insert_eq; auto.
Qed.

Lemma is_allowed_other (k : string) :
  k <> key -> window (is_allowed self key now).2 k = window self k.
Proof.
  intros Hk. unfold is_allowed, window, requests_getitem.
  destruct (requests self !! key) as [d|] eqn:E; simpl;
    destruct (_ <? _); simpl; rewrite !lookup_insert_ne by auto; reflexivity.
Qed.

Lemma get_retry_after_requests :
  requests (get_retry_after self key now).2
  = match requests self !! key with
    | Some _ => requests self
    | None => <[key := []]> (requests self)
    end.
Proof.
  unfold get_retry_after, requests_getitem.
  destruct (requests self !! key) as [[|t d]|]; reflexivity.
Qed.

Lemma get_retry_after_window (k : string) :
  window (get_retry_after self key now).2 k = window self k.
Proof.
  unfold window. rewrite get_retry_after_requests.
  destruct (requests self !! key) as [d|] eqn:E; [reflexivity|].
  destruct (decide (k = key)) as [->|Hk].
  - rewrite lookup_insert_eq, E. reflexivity.
  - rewrite lookup_insert_ne by auto. reflexivity.
Qed.

Lemma get_retry_after_value :
  (get_retry_after self key now).1
  = match window self key with
    | [] => 0
    | oldest :: _ =>
        Z.max 0 (py_int (inject_Z (time_window self) - (now - oldest))%Q)
    end.
Proof.
  unfold get_retry_after, window, requests_getitem.
  destruct (requests self !! key) as [[|t d]|]; reflexivity.
Qed.

End LimiterFrame.

Lemma step_config (self : RateLimiter) (c : call) :
  max_requests (step self c).2 = max_requests self
  /\ time_window (step self c).2 = time_window self.
Proof.
  destruct c as [k t | k t]; simpl.
  - pose proof (is_allowed_config self k t).
    destruct (is_allowed self k t); assumption.
  - pose proof (get_retry_after_config self k t).
    destruct (get_retry_after self k t); assumption.
Qed.

Lemma run_config (cs : list call) : forall self : RateLimiter,
  max_requests (run self cs).2 = max_requests self
  /\ time_window (run self cs).2 = time_window self.
Proof.
  induction cs as [|c cs IH]; intros self; simpl; [auto|].
  pose proof (step_config self c) as [Hm Ht].
  destruct (step self c) as [a self1]; simpl in *.
  specialize (IH self1).
  destruct (run self1 cs) as [r self2]; simpl in *.
  destruct IH; split; congruence.
Qed.

(** ** Configuration *)

(** C8, as the source has it: a limiter constructed without arguments has
    [max_requests = 10] and [time_window = 60]; the module-level instance is
    constructed with the explicit arguments 5 and 60; no sequence of
    [is_allowed] and [get_retry_after] calls changes either field. *)
Theorem constructor_defaults_and_fixed_config :
  max_requests (RateLimiter_init None None) = 10
  /\ time_window (RateLimiter_init None None) = 60
  /\ max_requests rate_limiter = 5
  /\ time_window rate_limiter = 60
  /\ forall (self : RateLimiter) (cs : list call),
       max_requests (run self cs).2 = max_requests self
       /\ time_window (run self cs).2 = time_window self.
Proof.
  repeat split; try reflexivity; apply run_config.
Qed.

(** C8 as stated fails: the default of [max_requests] is not 5. *)
Lemma constructor_default_is_not_five :
  ~ (max_requests (RateLimiter_init None None) = 5
     /\ time_window (RateLimiter_init None None) = 60).
Proof. intros [H _]. vm_compute in H. discriminate H. Qed.

(** ** Keys never seen before *)

(** C9: on a key that is not in the map, [is_allowed] and [get_retry_after]
    both leave an entry for it; [get_retry_after] answers 0 and stores the
    empty window, so the map has one key more although nothing was
    admitted. *)
Theorem unseen_key_gets_an_entry (self : RateLimiter) (key : string) (now : Q) :
  requests self !! key = None ->
  requests (is_allowed self key now).2 !! key
    = Some (if 0 <? max_requests self then [now] else [])
  /\ (get_retry_after self key now).1 = 0
  /\ requests (get_retry_after self key now).2 = <[key := []]> (requests self)
  /\ size (requests (get_retry_after self key now).2) = S (size (requests self))
  /\ size (requests (is_allowed self key now).2) = S (size (requests self)).
Proof.
  intros Hnone.
  assert (Hg : requests (get_retry_after self key now).2
               = <[key := []]> (requests self))
    by (rewrite get_retry_after_requests, Hnone; reflexivity).
  repeat split.
  - unfold is_allowed, requests_getitem. rewrite Hnone.
    cbn [purge length]. change (Z.of_nat 0) with 0.
    destruct (0 <? max_requests self); cbn [snd requests set_requests];
      rewrite insert_insert_eq, lookup_insert_eq; reflexivity.
  - rewrite get_retry_after_value. unfold window. rewrite Hnone. reflexivity.
  - exact Hg.
  - rewrite Hg. apply map_size_insert_None. exact Hnone.
  - unfold is_allowed, requests_getitem. rewrite Hnone.
    cbn [purge length]. change (Z.of_nat 0) with 0.
    destruct (0 <? max_requests self); cbn [snd requests set_requests];
      rewrite insert_insert_eq; apply map_size_insert_None; exact Hnone.
Qed.

Lemma unseen_key_gets_an_entry_witness :
  requests (get_retry_after rate_limiter "visitor" 7).2 = <[ "visitor" := [] ]> ∅.
Proof.
  apply (unseen_key_gets_an_entry rate_limiter "visitor" 7).
  reflexivity.
Defined.

(** ** Range of [get_retry_after] *)

(** C10: with a non-negative [time_window] and no recorded timestamp later
    than [now], [get_retry_after] answers an integer between 0 and
    [time_window]; it answers 0 for a key whose window is empty or absent;
    and it removes nothing: every entry of the map is as before. *)
Theorem get_retry_after_range (self : RateLimiter) (key : string) (now : Q) :
  0 <= time_window self ->
  Forall (fun t => (t <= now)%Q) (window self key) ->
  0 <= (get_retry_after self key now).1 <= time_window self
  /\ (window self key = [] -> (get_retry_after self key now).1 = 0)
  /\ (forall k d, requests self !! k = Some d ->
        requests (get_retry_after self key now).2 !! k = Some d)
  /\ (forall k, window (get_retry_after self key now).2 k = window self k).
Proof.
  intros HW Hpast. rewrite get_retry_after_value. repeat split.
  - destruct (window self key); lia.
  - destruct (window self key) as [|t0 w]; [lia|].
    apply retry_le; [exact HW|].
    apply Forall_cons in Hpast as [Ht0 _]. lra.
  - intros ->. reflexivity.
  - intros k d Hk. rewrite get_retry_after_requests.
    destruct (requests self !! key) eqn:E; [exact Hk|].
    rewrite lookup_insert_ne; [exact Hk|]. intros ->. congruence.
  - intros k. apply get_retry_after_window.
Qed.

Lemma get_retry_after_range_witness :
  0 <= (get_retry_after (is_allowed rate_limiter "u1" 0).2 "u1" (5 # 2)).1 <= 60.
Proof.
  apply (get_retry_after_range (is_allowed rate_limiter "u1" 0).2 "u1" (5 # 2)).
  - vm_compute. discriminate.
  - vm_compute. repeat constructor; discriminate.
Defined.

(** ** At most [max_requests] admissions in a window *)

Section SlidingWindow.

Variable key : string.
Variables (limit width : Z).
Hypothesis limit_nonneg : 0 <= limit.

Lemma inside_app (T : Q) (A B : list Q) :
  inside width T (A ++ B) = (inside width T A + inside width T B)%nat.
Proof. unfold inside. rewrite List.filter_app, length_app. reflexivity. Qed.

Lemma inside_le_length (T : Q) (A : list Q) : (inside width T A <= length A)%nat.
Proof. apply List.filter_length_le. Qed.

Lemma inside_stale (T b : Q) (A : list Q) :
  (b <= T - inject_Z width)%Q ->
  Forall (fun x => (x <= b)%Q) A -> inside width T A = 0%nat.
Proof.
  intros Hb. unfold inside. induction 1 as [|x A Hx _ IH]; simpl; [reflexivity|].
  destruct (in_trailing width T x) eqn:E; [|exact IH].
  apply in_trailing_spec in E. lra.
Qed.

Lemma linked_later (self : RateLimiter) (tl tl' : Q) (A : list Q) :
  (tl <= tl')%Q -> linked key limit width self tl A -> linked key limit width self tl' A.
Proof.
  intros Hle (Hm & Hw & (gone & HA & Hgone) & Hlen & Hin).
  repeat split; try assumption.
  exists gone. split; [exact HA|].
  eapply Forall_impl; [exact Hgone|]. simpl. intros x Hx. lra.
Qed.

Lemma linked_is_allowed (self : RateLimiter) (tl now : Q) (A : list Q) :
  (tl <= now)%Q -> linked key limit width self tl A ->
  linked key limit width (is_allowed self key now).2 now
    (if (is_allowed self key now).1 then A ++ [now] else A).
Proof.
  intros Hle (Hm & Hw & (gone & HA & Hgone) & Hlen & Hin).
  pose proof (is_allowed_config self key now) as [Hm' Hw'].
  pose proof (is_allowed_window self key now) as [Hans Hwin].
  cbv zeta in Hans, Hwin. unfold linked.
  rewrite Hans, Hwin, Hm', Hw'. rewrite Hm, Hw in *. clear Hans Hwin Hm' Hw'.
  destruct (purge_split (now - inject_Z width) (window self key))
    as (dropped & Hsplit & Hdropped).
  pose proof (purge_length (now - inject_Z width) (window self key)) as Hpl.
  set (kept := purge (now - inject_Z width) (window self key)) in *.
  assert (Hgone' : Forall (fun x => (x <= now - inject_Z width)%Q) (gone ++ dropped)).
  { apply Forall_app. split; [|exact Hdropped].
    eapply Forall_impl; [exact Hgone|]. simpl. intros x Hx. lra. }
  destruct (Z.of_nat (length kept) <? limit) eqn:Hok.
  - apply Z.ltb_lt in Hok.
    repeat split; try congruence.
    + exists (gone ++ dropped). split; [|exact Hgone'].
      rewrite HA, Hsplit, <- !app_assoc. reflexivity.
    + rewrite length_app. simpl. lia.
    + intros T. rewrite inside_app.
      destruct (in_trailing width T now) eqn:Hnow.
      * apply in_trailing_spec in Hnow as [_ HnowT].
        rewrite HA, Hsplit, app_assoc, inside_app.
        rewrite (inside_stale T (now - inject_Z width) (gone ++ dropped))
          by (try exact Hgone'; lra).
        pose proof (inside_le_length T kept).
        pose proof (inside_le_length T [now]). simpl in *. lia.
      * unfold inside at 2. simpl. rewrite Hnow. simpl.
        specialize (Hin T). lia.
  - repeat split; try congruence.
    + exists (gone ++ dropped). split; [|exact Hgone'].
      rewrite HA, Hsplit, <- !app_assoc. reflexivity.
    + lia.
    + exact Hin.
Qed.

Lemma linked_step (self : RateLimiter) (tl : Q) (A : list Q) (c : call) :
  (tl <= call_time c)%Q -> linked key limit width self tl A ->
  linked key limit width (step self c).2 (call_time c)
    (A ++ admitted self key [c]).
Proof.
  intros Hle HL. destruct c as [k now | k now]; simpl in *.
  - destruct (decide (k = key)) as [->|Hk].
    + pose proof (linked_is_allowed self tl now A Hle HL) as H.
      destruct (is_allowed self key now) as [[|] self']; simpl in *;
        [exact H | rewrite app_nil_r; exact H].
    + pose proof (is_allowed_config self k now) as [Hm' Hw'].
      pose proof (is_allowed_other self k now key) as Hsame.
      destruct (is_allowed self k now) as [b self']; simpl in *.
      replace (A ++ (if b then [] else [])) with A
        by (destruct b; rewrite app_nil_r; reflexivity).
      apply (linked_later _ tl now) in HL; [|exact Hle].
      destruct HL as (Hm & Hw & Hg & Hlen & Hin).
      unfold linked. rewrite Hsame by auto. repeat split; try congruence; assumption.
  - pose proof (get_retry_after_config self k now) as [Hm' Hw'].
    pose proof (get_retry_after_window self k now key) as Hsame.
    destruct (get_retry_after self k now) as [z self']; simpl in *.
    rewrite app_nil_r.
    apply (linked_later _ tl now) in HL; [|exact Hle].
    destruct HL as (Hm & Hw & Hg & Hlen & Hin).
    unfold linked. rewrite Hsame. repeat split; try congruence; assumption.
Qed.

Lemma admitted_cons (self : RateLimiter) (c : call) (cs : list call) :
  admitted self key (c :: cs)
  = admitted self key [c] ++ admitted (step self c).2 key cs.
Proof.
  simpl. destruct (step self c) as [a self']; simpl.
  destruct c as [k now | k now]; [|reflexivity].
  destruct a as [[|]|z]; try reflexivity.
  destruct (decide (k = key)); reflexivity.
Qed.

Lemma linked_run (cs : list call) : forall (self : RateLimiter) (tl : Q) (A : list Q),
  times_from tl cs = true -> linked key limit width self tl A ->
  forall T, (inside width T (A ++ admitted self key cs) <= Z.to_nat limit)%nat.
Proof.
  induction cs as [|c cs IH]; intros self tl A Hclock HL T.
  - simpl. rewrite app_nil_r. destruct HL as (_ & _ & _ & _ & Hin). apply Hin.
  - simpl in Hclock. apply andb_true_iff in Hclock as [Hle Hclock].
    apply py_le_spec in Hle.
    rewrite admitted_cons, app_assoc.
    apply (IH _ (call_time c)); [exact Hclock|].
    apply (linked_step self tl); assumption.
Qed.

End SlidingWindow.

Lemma monotone_clock_from (cs : list call) :
  monotone_clock cs = true -> exists tl, times_from tl cs = true.
Proof.
  destruct cs as [|c cs]; simpl; intros H.
  - exists 0%Q. reflexivity.
  - exists (call_time c). rewrite H, andb_true_r.
    apply py_le_spec. apply Qle_refl.
Qed.

(** C1: on a limiter that starts empty, whatever calls are made while the
    clock does not go back, the admitted checks of a key whose timestamps
    lie in one trailing interval [(T - time_window, T]] number at most
    [max_requests]. *)
Theorem admissions_bounded_in_any_window
    (mr tw : option Z) (cs : list call) (key : string) (T : Q) :
  let self := RateLimiter_init mr tw in
  0 <= max_requests self ->
  monotone_clock cs = true ->
  Z.of_nat (length (List.filter (in_trailing (time_window self) T)
                      (admitted self key cs)))
  <= max_requests self.
Proof.
  intros self Hlimit Hclock.
  destruct (monotone_clock_from cs Hclock) as [tl Htl].
  assert (HL : linked key (max_requests self) (time_window self) self tl []).
  { assert (Hempty : window self key = [])
      by (unfold window, self; simpl; rewrite lookup_empty; reflexivity).
    repeat split.
    - exists []. rewrite Hempty. split; [reflexivity | constructor].
    - rewrite Hempty. simpl. lia.
    - intros T'. unfold inside. simpl. lia. }
  pose proof (linked_run key (max_requests self) (time_window self) cs self tl []
                Htl HL T) as H.
  unfold inside in H. rewrite app_nil_l in H. lia.
Qed.

Lemma admissions_bounded_in_any_window_witness :
  Z.of_nat (length (List.filter (in_trailing 60 61)
    (admitted rate_limiter "u1"
       [IsAllowed "u1" 0; IsAllowed "u1" 0; IsAllowed "u1" 0; IsAllowed "u1" 0;
        IsAllowed "u1" 0; IsAllowed "u1" 1; GetRetryAfter "u1" 1;
        IsAllowed "u2" 30; IsAllowed "u1" 61; IsAllowed "u1" 61]%Q)))
  <= 5.
Proof.
  apply (admissions_bounded_in_any_window (Some 5) (Some 60)
    [IsAllowed "u1" 0; IsAllowed "u1" 0; IsAllowed "u1" 0; IsAllowed "u1" 0;
     IsAllowed "u1" 0; IsAllowed "u1" 1; GetRetryAfter "u1" 1;
     IsAllowed "u2" 30; IsAllowed "u1" 61; IsAllowed "u1" 61]%Q "u1" 61%Q).
  - vm_compute. discriminate.
  - vm_compute. reflexivity.
Defined.

(** ** A burst of [max_requests + 1] checks *)

Lemma run_app (cs1 cs2 : list call) : forall self : RateLimiter,
  run self (cs1 ++ cs2)
  = ((run self cs1).1 ++ (run (run self cs1).2 cs2).1,
     (run (run self cs1).2 cs2).2).
Proof.
  induction cs1 as [|c cs1 IH]; intros self; simpl.
  - destruct (run self cs2); reflexivity.
  - destruct (step self c) as [a self1]. rewrite IH.
    destruct (run self1 cs1) as [r1 self2]; simpl.
    destruct (run self2 cs2); reflexivity.
Qed.

Lemma purge_close (width : Z) (now : Q) (w : list Q) :
  Forall (fun x => (now - x < inject_Z width)%Q) w ->
  purge (now - inject_Z width) w = w.
Proof.
  destruct 1 as [|x w Hx _]; [reflexivity|].
  apply purge_fresh. lra.
Qed.

Lemma close_together_step (width : Z) (w : list Q) (t : Q) (ts : list Q) :
  close_together width (w ++ t :: ts) ->
  Forall (fun x => (t - x < inject_Z width)%Q) w
  /\ close_together width ((w ++ [t]) ++ ts).
Proof.
  intros H. split.
  - unfold close_together in H. rewrite Forall_forall in H.
    assert (Ht : t ∈ w ++ t :: ts) by set_solver.
    specialize (H t Ht). apply Forall_app in H as [H _]. exact H.
  - rewrite <- app_assoc. exact H.
Qed.

Section Burst.

Variable key : string.

(** While the window has room and nothing in it is stale, every check is
    admitted and recorded. *)
Lemma burst_admitted (ts : list Q) : forall self : RateLimiter,
  close_together (time_window self) (window self key ++ ts) ->
  Z.of_nat (length (window self key ++ ts)) <= max_requests self ->
  (run self (checks key ts)).1 = replicate (length ts) (ABool true)
  /\ window (run self (checks key ts)).2 key = window self key ++ ts
  /\ max_requests (run self (checks key ts)).2 = max_requests self
  /\ time_window (run self (checks key ts)).2 = time_window self.
Proof.
  induction ts as [|t ts IH]; intros self Hclose Hroom.
  - simpl. rewrite app_nil_r. auto.
  - apply close_together_step in Hclose as [Hfresh Hclose].
    pose proof (is_allowed_config self key t) as [Hm Hw].
    pose proof (is_allowed_window self key t) as [Hans Hwin].
    cbv zeta in Hans, Hwin.
    rewrite purge_close in Hans, Hwin by exact Hfresh.
    assert (Hlt : (Z.of_nat (length (window self key)) <? max_requests self) = true).
    { apply Z.ltb_lt. rewrite length_app in Hroom. simpl in Hroom. lia. }
    rewrite Hlt in Hans, Hwin.
    simpl. destruct (is_allowed self key t) as [b self1]; simpl in *. subst b.
    specialize (IH self1). rewrite Hwin, Hm, Hw in IH.
    destruct IH as (Hr & Hwindow & Hm' & Hw').
    + exact Hclose.
    + rewrite <- app_assoc. exact Hroom.
    + destruct (run self1 (checks key ts)) as [r self2]; simpl in *.
      rewrite <- app_assoc in Hwindow. simpl in Hwindow.
      repeat split; congruence.
Qed.

(** The check after that is refused, and leaves the window as it is. *)
Lemma burst_denied (self : RateLimiter) (t : Q) :
  Forall (fun x => (t - x < inject_Z (time_window self))%Q) (window self key) ->
  Z.of_nat (length (window self key)) = max_requests self ->
  (is_allowed self key t).1 = false
  /\ window (is_allowed self key t).2 key = window self key.
Proof.
  intros Hfresh Hfull.
  pose proof (is_allowed_window self key t) as [Hans Hwin].
  cbv zeta in Hans, Hwin.
  rewrite purge_close in Hans, Hwin by exact Hfresh.
  assert (Hge : (Z.of_nat (length (window self key)) <? max_requests self) = false)
    by (apply Z.ltb_ge; lia).
  rewrite Hge in Hans, Hwin. auto.
Qed.

(** X17: from an empty window, [max_requests] checks followed by one more,
    all pairwise less than [time_window] apart, are answered [True] ...
    [True], [False]. The wait the code reports at the time of the refused
    check is never negative, and it is positive exactly when the refused
    check comes at most [time_window - 1] seconds after the first one. *)
Theorem burst_admits_then_denies
    (self : RateLimiter) (early : list Q) (last : Q) :
  window self key = [] ->
  Z.of_nat (length early) = max_requests self ->
  close_together (time_window self) (early ++ [last]) ->
  let out := run self (checks key (early ++ [last])) in
  out.1 = replicate (length early) (ABool true) ++ [ABool false]
  /\ 0 <= (get_retry_after out.2 key last).1
  /\ (0 < (get_retry_after out.2 key last).1
      <-> exists first, head early = Some first
            /\ (last - first <= inject_Z (time_window self) - 1)%Q).
Proof.
  intros Hempty Hlen Hclose out. subst out.
  unfold checks. rewrite map_app, run_app. fold (checks key early).
  assert (Hclose1 : close_together (time_window self) (window self key ++ early)).
  { rewrite Hempty. simpl.
    unfold close_together in *. apply Forall_app in Hclose as [Hclose _].
    eapply Forall_impl; [exact Hclose|]. simpl. intros x Hx.
    apply Forall_app in Hx as [Hx _]. exact Hx. }
  destruct (burst_admitted early self Hclose1) as (Hr & Hwin & Hm & Hw).
  { rewrite Hempty. simpl. lia. }
  rewrite Hempty in Hwin. simpl in Hwin.
  set (self1 := (run self (checks key early)).2) in *.
  rewrite Hr. cbn [fst snd map run].
  destruct (burst_denied self1 last) as [Hans Hsame].
  { rewrite Hwin, Hw. unfold close_together in Hclose.
    rewrite Forall_forall in Hclose.
    assert (Hl : last ∈ early ++ [last]) by set_solver.
    specialize (Hclose last Hl). apply Forall_app in Hclose as [H _]. exact H. }
  { rewrite Hwin, Hm. exact Hlen. }
  pose proof (is_allowed_config self1 key last) as [Hm2 Hw2].
  change (step self1 (IsAllowed key last))
    with (let '(b, s) := is_allowed self1 key last in (ABool b, s)).
  destruct (is_allowed self1 key last) as [b self2]; simpl in *. subst b.
  rewrite !get_retry_after_value, Hsame, Hwin, Hw2, Hw.
  split; [reflexivity|]. split.
  - destruct early; lia.
  - destruct early as [|first rest]; simpl.
    + split; [lia | intros (f & Hf & _); discriminate].
    + rewrite retry_pos_iff. split.
      * intros H. exists first. split; [reflexivity | lra].
      * intros (f & Hf & H). injection Hf as <-. lra.
Qed.

End Burst.

Lemma burst_admits_then_denies_witness :
  (run rate_limiter (checks "u1" ([0; 0; 0; 0; 0] ++ [1]))%Q).1
  = replicate 5 (ABool true) ++ [ABool false].
Proof.
  apply (burst_admits_then_denies "u1" rate_limiter [0; 0; 0; 0; 0]%Q 1%Q).
  - reflexivity.
  - reflexivity.
  - repeat constructor.
Defined.

(** C4, the code at the failing input: five checks at time 0 and a sixth at
    59.5 are all less than 60 seconds apart and the sixth is refused, as
    the claim says; but the wait [get_retry_after] reports at that moment
    is 0, not a positive number, although a check made after waiting those
    0 seconds is still refused. The docstring of [get_retry_after]
    promises the seconds to wait before the next request is allowed. *)
Lemma burst_retry_after_can_be_zero :
  window rate_limiter "u1" = []
  /\ Z.of_nat (length [0; 0; 0; 0; 0]%Q) = max_requests rate_limiter
  /\ close_together (time_window rate_limiter) ([0; 0; 0; 0; 0] ++ [119 # 2])%Q
  /\ (run rate_limiter (checks "u1" ([0; 0; 0; 0; 0] ++ [119 # 2]))%Q).1
     = replicate 5 (ABool true) ++ [ABool false]
  /\ (get_retry_after
        (run rate_limiter (checks "u1" ([0; 0; 0; 0; 0] ++ [119 # 2]))%Q).2
        "u1" (119 # 2)).1 = 0
  /\ (is_allowed
        (run rate_limiter (checks "u1" ([0; 0; 0; 0; 0] ++ [119 # 2]))%Q).2
        "u1" ((119 # 2) + 0)).1 = false.
Proof.
  split; [reflexivity|]. split; [reflexivity|]. split; [repeat constructor|].
  repeat split; vm_compute; reflexivity.
Qed.

(** ** The reported wait *)

Section RetryAfter.

Variables (self : RateLimiter) (key : string).
Variables (oldest : Q) (others : list Q).
Hypothesis has_oldest : window self key = oldest :: others.

Lemma retry_after_formula (now : Q) :
  (get_retry_after self key now).1 = Z.max 0 (py_int (remaining self oldest now)).
Proof. rewrite get_retry_after_value, has_oldest. reflexivity. Qed.

Lemma retry_after_decreases (now now' : Q) :
  (now <= now')%Q ->
  (get_retry_after self key now').1 <= (get_retry_after self key now).1.
Proof.
  intros H. rewrite !retry_after_formula. apply retry_mono.
  unfold remaining. lra.
Qed.

Lemma retry_after_zero_iff (now : Q) :
  (get_retry_after self key now).1 = 0
  <-> (inject_Z (time_window self) - 1 < now - oldest)%Q.
Proof.
  rewrite retry_after_formula.
  pose proof (retry_pos_iff (remaining self oldest now)) as Hpos.
  pose proof (retry_nonneg (remaining self oldest now)) as Hnn.
  unfold remaining in *. split.
  - intros H0. apply Qnot_le_lt. intros Hle.
    assert (0 < Z.max 0 (py_int (inject_Z (time_window self) - (now - oldest))%Q))
      by (apply Hpos; lra).
    lia.
  - intros Hlt.
    destruct (Z.eq_dec
      (Z.max 0 (py_int (inject_Z (time_window self) - (now - oldest))%Q)) 0)
      as [E|E]; [exact E|].
    assert (Hp : 0 < Z.max 0 (py_int (inject_Z (time_window self) - (now - oldest))%Q))
      by lia.
    apply Hpos in Hp. lra.
Qed.

End RetryAfter.

(** X18: what [get_retry_after] computes for a window whose oldest entry is
    [oldest]: [max(0, int(time_window - (now - oldest)))], the remaining
    time rounded down to whole seconds. The result is never negative, it
    never grows as [now] advances, and it is 0 exactly when
    [now - oldest > time_window - 1]. *)
Theorem retry_after_truncated_remaining
    (self : RateLimiter) (key : string) (oldest : Q) (others : list Q) :
  window self key = oldest :: others ->
  (forall now,
     (get_retry_after self key now).1
     = Z.max 0 (py_int (inject_Z (time_window self) - (now - oldest))%Q)
     /\ 0 <= (get_retry_after self key now).1
     /\ ((get_retry_after self key now).1 = 0
         <-> (inject_Z (time_window self) - 1 < now - oldest)%Q)
     /\ ((oldest + inject_Z (time_window self) <= now)%Q ->
         (get_retry_after self key now).1 = 0))
  /\ (forall now now', (now <= now')%Q ->
        (get_retry_after self key now').1 <= (get_retry_after self key now).1).
Proof.
  intros Hw. split.
  - intros now.
    pose proof (retry_after_formula self key oldest others Hw now) as Hf.
    pose proof (retry_after_zero_iff self key oldest others Hw now) as Hz.
    repeat split.
    + exact Hf.
    + rewrite Hf. lia.
    + apply Hz.
    + apply Hz.
    + intros Hout. apply Hz. lra.
  - intros now now'. apply (retry_after_decreases self key oldest others Hw).
Qed.

Lemma retry_after_truncated_remaining_witness :
  (get_retry_after (is_allowed rate_limiter "u1" 0).2 "u1" (1 # 2)).1
  = Z.max 0 (py_int (inject_Z 60 - ((1 # 2) - 0))%Q).
Proof.
  apply (retry_after_truncated_remaining
           (is_allowed rate_limiter "u1" 0).2 "u1" 0%Q []).
  reflexivity.
Defined.

Section WholeSeconds.

(** The reported wait is a whole number less than one second away from
    the exact remaining time. *)
Lemma retry_near_exact (x : Q) :
  (Qmax 0 x - 1 < inject_Z (Z.max 0 (py_int x)))%Q
  /\ (inject_Z (Z.max 0 (py_int x)) < Qmax 0 x + 1)%Q.
Proof.
  rewrite py_int_floor.
  pose proof (Qfloor_le x) as Hle.
  pose proof (Qlt_floor x) as Hlt. rewrite inject_Z_plus in Hlt.
  change (inject_Z 1) with 1%Q in Hlt.
  destruct (Q.max_spec 0 x) as [[Hx Hmax] | [Hx Hmax]];
    destruct (Z.max_spec 0 (Qfloor x)) as [[Hf ->] | [Hf ->]].
  - split; lra.
  - assert (inject_Z (Qfloor x) <= inject_Z 0)%Q by (rewrite <- Zle_Qle; lia).
    change (inject_Z 0) with 0%Q in *. split; lra.
  - assert (inject_Z 1 <= inject_Z (Qfloor x))%Q by (rewrite <- Zle_Qle; lia).
    change (inject_Z 1) with 1%Q in *. split; lra.
  - change (inject_Z 0) with 0%Q. split; lra.
Qed.

End WholeSeconds.

(** C5, as the source has it by design: for a window whose oldest entry is
    [oldest], [get_retry_after] at time [now] is a whole number of seconds
    less than one second away from
    [max(0, time_window - (now - oldest))], and equal to it when that is a
    whole number. It is never negative, it never grows as [now] advances,
    it is positive while at least one second remains, and it is 0 once the
    oldest entry has aged out. *)
Theorem retry_after_whole_seconds
    (self : RateLimiter) (key : string) (oldest : Q) (others : list Q) :
  window self key = oldest :: others ->
  (forall now,
     0 <= (get_retry_after self key now).1
     /\ (spec_retry_after (time_window self) now oldest - 1
         < inject_Z (get_retry_after self key now).1)%Q
     /\ (inject_Z (get_retry_after self key now).1
         < spec_retry_after (time_window self) now oldest + 1)%Q
     /\ (forall n : Z,
          (spec_retry_after (time_window self) now oldest == inject_Z n)%Q ->
          (get_retry_after self key now).1 = n)
     /\ ((now - oldest <= inject_Z (time_window self) - 1)%Q ->
         0 < (get_retry_after self key now).1)
     /\ ((oldest + inject_Z (time_window self) <= now)%Q ->
         (get_retry_after self key now).1 = 0))
  /\ (forall now now', (now <= now')%Q ->
        (get_retry_after self key now').1 <= (get_retry_after self key now).1).
Proof.
  intros Hw. split.
  - intros now.
    pose proof (retry_after_formula self key oldest others Hw now) as Hf.
    unfold remaining in Hf. rewrite Hf. unfold spec_retry_after.
    set (x := (inject_Z (time_window self) - (now - oldest))%Q).
    destruct (retry_near_exact x) as [Hlo Hhi].
    split; [lia|]. split; [exact Hlo|]. split; [exact Hhi|]. split; [|split].
    + intros n Hn. rewrite Hn in Hlo, Hhi.
      assert (H1 : (inject_Z (n - 1) < inject_Z (Z.max 0 (py_int x)))%Q).
      { unfold Z.sub. rewrite inject_Z_plus, inject_Z_opp.
        change (inject_Z 1) with 1%Q. lra. }
      assert (H2 : (inject_Z (Z.max 0 (py_int x)) < inject_Z (n + 1))%Q).
      { rewrite inject_Z_plus. change (inject_Z 1) with 1%Q. lra. }
      rewrite <- Zlt_Qlt in H1, H2. lia.
    + intros Hleft. apply retry_pos_iff. unfold x. lra.
    + intros Hout.
      pose proof (retry_after_zero_iff self key oldest others Hw now) as Hz.
      rewrite Hf in Hz. apply Hz. lra.
  - intros now now'. apply (retry_after_decreases self key oldest others Hw).
Qed.

Lemma retry_after_whole_seconds_witness :
  (get_retry_after (is_allowed rate_limiter "u1" 0).2 "u1" 1).1 = 59.
Proof.
  destruct (retry_after_whole_seconds
              (is_allowed rate_limiter "u1" 0).2 "u1" 0%Q [] eq_refl)
    as [Hnow _].
  destruct (Hnow 1%Q) as (_ & _ & _ & Hwhole & _).
  apply Hwhole. vm_compute. reflexivity.
Defined.

(** C5 as stated fails. With one admission at time 0 and a window of 60
    seconds: at time 0.5 the answer is the whole number 59, not 59.5; and
    at the later time 0.75, still before the entry ages out, it is still
    59, so it did not strictly decrease. *)
Lemma retry_after_is_not_the_exact_remaining :
  let self := (is_allowed rate_limiter "u1" 0).2 in
  window self "u1" = [0%Q]
  /\ ~ (inject_Z (get_retry_after self "u1" (1 # 2)).1
        == spec_retry_after (time_window self) (1 # 2) 0)%Q
  /\ ((1 # 2) < (3 # 4))%Q
  /\ ((3 # 4) < 0 + inject_Z (time_window self))%Q
  /\ ~ (get_retry_after self "u1" (3 # 4)).1 < (get_retry_after self "u1" (1 # 2)).1.
Proof.
  cbv zeta. repeat split; try (vm_compute; reflexivity);
    vm_compute; discriminate.
Qed.

(** ** Admission after the window has passed *)

Section AfterWaiting.

Variable key : string.

Lemma purge_Forall (P : Q -> Prop) (b : Q) (w : list Q) :
  Forall P w -> Forall P (purge b w).
Proof.
  intros H. destruct (purge_split b w) as (d & Hw & _).
  rewrite Hw in H. apply Forall_app in H as [_ H]. exact H.
Qed.

Lemma in_the_past_later (self : RateLimiter) (tl tl' : Q) :
  (tl <= tl')%Q -> in_the_past key self tl -> in_the_past key self tl'.
Proof.
  intros Hle H. eapply Forall_impl; [exact H|]. simpl. intros x Hx. lra.
Qed.

Lemma in_the_past_is_allowed (self : RateLimiter) (tl now : Q) :
  (tl <= now)%Q -> in_the_past key self tl ->
  in_the_past key (is_allowed self key now).2 now.
Proof.
  intros Hle H. unfold in_the_past.
  pose proof (is_allowed_window self key now) as [_ Hwin].
  cbv zeta in Hwin. rewrite Hwin.
  apply (in_the_past_later _ _ now) in H; [|exact Hle].
  apply (purge_Forall _ (now - inject_Z (time_window self))%Q) in H.
  destruct (_ <? _); [|exact H].
  apply Forall_app. split; [exact H|].
  constructor; [apply Qle_refl | constructor].
Qed.

Lemma in_the_past_step (self : RateLimiter) (tl : Q) (c : call) :
  (tl <= call_time c)%Q -> in_the_past key self tl ->
  in_the_past key (step self c).2 (call_time c).
Proof.
  intros Hle H. destruct c as [k now | k now]; simpl in *.
  - destruct (decide (k = key)) as [->|Hk].
    + pose proof (in_the_past_is_allowed self tl now Hle H) as H'.
      destruct (is_allowed self key now); exact H'.
    + pose proof (is_allowed_other self k now key) as Hsame.
      destruct (is_allowed self k now) as [b self']; simpl in *.
      unfold in_the_past. rewrite Hsame by auto.
      apply (in_the_past_later self tl); assumption.
  - pose proof (get_retry_after_window self k now key) as Hsame.
    destruct (get_retry_after self k now) as [z self']; simpl in *.
    unfold in_the_past. rewrite Hsame.
    apply (in_the_past_later self tl); assumption.
Qed.

Lemma in_the_past_run (cs : list call) : forall (self : RateLimiter) (tl : Q) (c : call),
  times_from tl (cs ++ [c]) = true -> in_the_past key self tl ->
  in_the_past key (run self cs).2 (call_time c).
Proof.
  induction cs as [|c0 cs IH]; intros self tl c Hclock H; simpl in Hclock;
    apply andb_true_iff in Hclock as [Hle Hclock]; apply py_le_spec in Hle.
  - simpl. apply (in_the_past_later self tl); assumption.
  - pose proof (in_the_past_step self tl c0 Hle H) as H1.
    specialize (IH (step self c0).2 (call_time c0) c Hclock H1).
    simpl. destruct (step self c0) as [a self1]; simpl in *.
    destruct (run self1 cs); exact IH.
Qed.

(** A check made more than [time_window] after every recorded timestamp
    finds the window empty once purged. *)
Lemma admitted_when_all_stale (self : RateLimiter) (t t' : Q) :
  0 < max_requests self ->
  in_the_past key self t ->
  (t + inject_Z (time_window self) < t')%Q ->
  (is_allowed self key t').1 = true.
Proof.
  intros Hpos Hpast Hwait.
  pose proof (is_allowed_window self key t') as [Hans _].
  cbv zeta in Hans. rewrite Hans, purge_all.
  - apply Z.ltb_lt. simpl. lia.
  - eapply Forall_impl; [exact Hpast|]. simpl. intros x Hx. lra.
Qed.

End AfterWaiting.

(** C6: on a limiter with [max_requests > 0] that started empty and was
    used while the clock did not go back, if the check of a key at time [t]
    is refused, then the next check of that key, made at a time later than
    [t + time_window], is admitted. *)
Theorem admitted_after_waiting
    (mr tw : option Z) (cs : list call) (key : string) (t t' : Q) :
  let self := (run (RateLimiter_init mr tw) cs).2 in
  0 < max_requests (RateLimiter_init mr tw) ->
  monotone_clock (cs ++ [IsAllowed key t]) = true ->
  (is_allowed self key t).1 = false ->
  (t + inject_Z (time_window (RateLimiter_init mr tw)) < t')%Q ->
  (is_allowed (is_allowed self key t).2 key t').1 = true.
Proof.
  intros self Hpos Hclock Hdeny Hwait.
  destruct (monotone_clock_from _ Hclock) as [tl Htl].
  pose proof (run_config cs (RateLimiter_init mr tw)) as [Hm Hw].
  fold self in Hm, Hw.
  assert (Hpast : in_the_past key self t).
  { apply (in_the_past_run key cs _ tl (IsAllowed key t) Htl).
    unfold in_the_past, window. simpl. rewrite lookup_empty. constructor. }
  pose proof (is_allowed_config self key t) as [Hm1 Hw1].
  apply (admitted_when_all_stale key _ t).
  - rewrite Hm1, Hm. exact Hpos.
  - apply (in_the_past_is_allowed key self t); [apply Qle_refl | exact Hpast].
  - rewrite Hw1, Hw. exact Hwait.
Qed.

Lemma admitted_after_waiting_witness :
  (is_allowed
     (is_allowed (run rate_limiter (checks "u1" [0; 0; 0; 0; 0]%Q)).2 "u1" 1).2
     "u1" (123 # 2)).1 = true.
Proof.
  apply (admitted_after_waiting (Some 5) (Some 60) (checks "u1" [0; 0; 0; 0; 0]%Q)
           "u1" 1%Q (123 # 2)).
  - reflexivity.
  - vm_compute. reflexivity.
  - vm_compute. reflexivity.
  - vm_compute. reflexivity.
Defined.

(** ** The client's classification of the provider's answer *)

Section Resolve.

#[local] Arguments PyObj.is_substring : simpl never.
#[local] Arguments PyObj.lookup_field : simpl never.
#[local] Arguments existsb : simpl never.

Ltac resolve_case :=
  match goal with
  | |- context [PyObj.lookup_field ?k ?f] =>
      destruct (PyObj.lookup_field k f) as [[| ? | ? | ? | [|? ?] | ?]|]
  | |- context [PyObj.is_substring ?a ?b] => destruct (PyObj.is_substring a b)
  | |- context [existsb ?f ?l] => destruct (existsb f l)
  | |- context [0 <? ?n] =>
      let E := fresh in
      destruct (0 <? n) eqn:E;
      [clear E | try (exfalso; apply Z.ltb_ge in E; cbn [length] in E; lia); clear E]
  | |- context [match ?x with _ => _ end] => is_var x; destruct x
  end; cbn.


Lemma generate_content_try_200 (r : response) (data : json) :
  status_code r = 200 -> json_ r = Ok data ->
  generate_content_try (Ok r) = success_branch data.
Proof.
  intros Hs Hj. unfold success_branch, generate_content_try. simpl.
  rewrite Hs, Hj. reflexivity.
Qed.

Lemma success_branch_cases (data : json) :
  match generated_text data with
  | Some v => success_branch data = Ok v
  | None =>
      success_branch data = Ok JNull
      \/ exists e, success_branch data = Raise e /\ is_request_exception e = false
  end.
Proof.
  unfold success_branch, generate_content_try, generated_text, field, first_item.
  cbn [py_bind status_code json_ Z.eqb Pos.eqb].
  destruct data as [| b | q | s | items | fields]; cbn; eauto.
  all: repeat resolve_case.
  all: try reflexivity.
  all: try (right; eexists; split; [reflexivity | reflexivity]).
  all: try (left; reflexivity).
Qed.
End Resolve.

(** What [generate_content] makes of the outcome of the 200 branch. *)
Lemma generate_content_200 (post : string -> py response) (text : string)
    (r : response) (data : json) :
  post text = Ok r -> status_code r = 200 -> json_ r = Ok data ->
  match generated_text data with
  | Some v => generate_content post text = v
  | None =>
      generate_content post text = JNull
      \/ generate_content post text = JStr unexpected_error_message
  end.
Proof.
  intros Hp Hs Hj. unfold generate_content.
  rewrite Hp, (generate_content_try_200 r data Hs Hj).
  pose proof (success_branch_cases data) as H.
  destruct (generated_text data) as [v|].
  - rewrite H. reflexivity.
  - destruct H as [H | (e & H & He)]; rewrite H; [left; reflexivity|].
    right. rewrite He. reflexivity.
Qed.

Lemma generate_content_raise (post : string -> py response) (text : string) (e : exn) :
  generate_content_try (post text) = Raise e ->
  generate_content post text
  = JStr (if is_request_exception e then request_error_message
          else unexpected_error_message).
Proof.
  intros H. unfold generate_content. rewrite H.
  destruct (is_request_exception e); reflexivity.
Qed.

Lemma generate_content_429 (post : string -> py response) (text : string)
    (r : response) :
  post text = Ok r -> status_code r = 429 ->
  generate_content post text
  = match json_ r with
    | Raise e =>
        JStr (if is_request_exception e then request_error_message
              else unexpected_error_message)
    | Ok (JObj fields) =>
        match PyObj.lookup_field "error" fields with
        | None | Some (JObj _) => JStr quota_message
        | Some _ => JStr unexpected_error_message
        end
    | Ok _ => JStr unexpected_error_message
    end.
Proof.
  intros Hp Hs. unfold generate_content, generate_content_try.
  rewrite Hp. cbn [py_bind]. rewrite Hs. cbn [Z.eqb Pos.eqb].
  destruct (json_ r) as [[| b | q | s | items | fields] | e]; cbn;
    try reflexivity.
  - destruct (PyObj.lookup_field "error" fields) as [[| ? | ? | ? | ? | ?]|];
      reflexivity.
  - destruct (is_request_exception e); reflexivity.
Qed.

Lemma generate_content_200_undecodable (post : string -> py response) (text : string)
    (r : response) (e : exn) :
  post text = Ok r -> status_code r = 200 -> json_ r = Raise e ->
  generate_content post text
  = JStr (if is_request_exception e then request_error_message
          else unexpected_error_message).
Proof.
  intros Hp Hs Hj. apply generate_content_raise.
  unfold generate_content_try. rewrite Hp. cbn [py_bind].
  rewrite Hs, Hj. reflexivity.
Qed.

Lemma generate_content_other_status (post : string -> py response) (text : string)
    (r : response) :
  post text = Ok r -> status_code r <> 200 -> status_code r <> 429 ->
  generate_content post text = JStr api_error_message.
Proof.
  intros Hp H200 H429. unfold generate_content, generate_content_try.
  rewrite Hp. cbn [py_bind].
  apply Z.eqb_neq in H200, H429. rewrite H200, H429. reflexivity.
Qed.

(** C2, as the source has it: [generate_content] always returns. A
    connection or timeout failure, a quota status and any other non-success
    status give a fixed non-empty string: for a failed request and for a
    body that cannot be decoded, the connection message or the generic
    message by the class of the exception; for a quota status with a
    decoded body, the quota message when the body is an object whose
    [error] is absent or an object and the generic message otherwise. A
    success status gives the generated-text field as it is when the body
    has one, whatever its value; [None] or the generic message when the
    body is decoded and the field is missing; and the connection or the
    generic message when the body cannot be decoded. *)
Theorem generate_content_classification (post : string -> py response) (text : string) :
  (forall e, post text = Raise e ->
     generate_content post text
     = JStr (if is_request_exception e then request_error_message
             else unexpected_error_message))
  /\ (forall r, post text = Ok r -> status_code r = 429 ->
        generate_content post text
        = match json_ r with
          | Raise e =>
              JStr (if is_request_exception e then request_error_message
                    else unexpected_error_message)
          | Ok (JObj fields) =>
              match PyObj.lookup_field "error" fields with
              | None | Some (JObj _) => JStr quota_message
              | Some _ => JStr unexpected_error_message
              end
          | Ok _ => JStr unexpected_error_message
          end)
  /\ (forall r, post text = Ok r ->
        status_code r <> 200 -> status_code r <> 429 ->
        generate_content post text = JStr api_error_message)
  /\ (forall r data v, post text = Ok r -> status_code r = 200 ->
        json_ r = Ok data -> generated_text data = Some v ->
        generate_content post text = v)
  /\ (forall r data, post text = Ok r -> status_code r = 200 ->
        json_ r = Ok data -> generated_text data = None ->
        generate_content post text = JNull
        \/ generate_content post text = JStr unexpected_error_message)
  /\ (forall r e, post text = Ok r -> status_code r = 200 ->
        json_ r = Raise e ->
        generate_content post text
        = JStr (if is_request_exception e then request_error_message
                else unexpected_error_message))
  /\ ((forall r, post text = Ok r -> status_code r <> 200) ->
      nonempty_str (generate_content post text) = true).
Proof.
  split; [|split; [|split; [|split; [|split; [|split]]]]].
  - intros e Hp. apply generate_content_raise.
    unfold generate_content_try. rewrite Hp. reflexivity.
  - intros r. apply generate_content_429.
  - intros r. apply generate_content_other_status.
  - intros r data v Hp Hs Hj Hv.
    pose proof (generate_content_200 post text r data Hp Hs Hj) as H.
    rewrite Hv in H. exact H.
  - intros r data Hp Hs Hj Hv.
    pose proof (generate_content_200 post text r data Hp Hs Hj) as H.
    rewrite Hv in H. exact H.
  - intros r e. apply generate_content_200_undecodable.
  - intros Hnot. destruct (post text) as [r | e] eqn:Hp.
    + specialize (Hnot r eq_refl).
      destruct (Z.eq_dec (status_code r) 429) as [Hs | Hs].
      * rewrite (generate_content_429 post text r Hp Hs).
        destruct (json_ r) as [[| b | q | s | items | fields] | e];
          try reflexivity.
        -- destruct (PyObj.lookup_field "error" fields)
             as [[| ? | ? | ? | ? | ?]|]; reflexivity.
        -- destruct (is_request_exception e); reflexivity.
      * rewrite (generate_content_other_status post text r Hp Hnot Hs).
        reflexivity.
    + rewrite (generate_content_raise post text e).
      * destruct (is_request_exception e); reflexivity.
      * unfold generate_content_try. rewrite Hp. reflexivity.
Qed.

Lemma generate_content_classification_witness :
  generate_content (fun _ => Ok (mkResponse 503 (Raise OtherException) "busy")) "Hello"
  = JStr api_error_message.
Proof.
  destruct (generate_content_classification
              (fun _ => Ok (mkResponse 503 (Raise OtherException) "busy")) "Hello")
    as (_ & _ & Hother & _).
  apply (Hother (mkResponse 503 (Raise OtherException) "busy")).
  - reflexivity.
  - simpl. discriminate.
  - simpl. discriminate.
Defined.

(** C2 as stated fails: a 200 answer whose body is the empty object makes
    [generate_content] return [None], and a 200 answer whose text field is
    the empty string makes it return the empty string; neither is a
    non-empty string. *)
Lemma generate_content_can_return_no_text :
  nonempty_str
    (generate_content (fun _ => Ok (mkResponse 200 (Ok (JObj [])) "{}")) "Hello")
  = false
  /\ nonempty_str
       (generate_content
          (fun _ => Ok (mkResponse 200
             (Ok (JObj [("candidates",
                JArr [JObj [("content",
                  JObj [("parts", JArr [JObj [("text", JStr "")]])])]])])) ""))
          "Hello")
     = false.
Proof. split; vm_compute; reflexivity. Qed.




(** ** The chat route and the limiter *)

Section Chat.

Variables (a : App) (get_json : py json) (timestamp : string).

(** The route never touches the limiter, and nothing it does depends on
    the limiter's state. *)
Lemma chat_frame (w : world) (lim : RateLimiter) :
  chat a get_json timestamp (mkWorld lim (api_calls w) (saved w))
  = ((chat a get_json timestamp w).1,
     mkWorld lim (api_calls (chat a get_json timestamp w).2)
                 (saved (chat a get_json timestamp w).2)).
Proof.
  unfold chat, chat_try.
  destruct get_json as [data | e]; cbn [py_bind]; [|reflexivity].
  destruct (PyObj.get data "message" (JStr "")) as [message | e];
    cbn [py_bind]; [|reflexivity].
  destruct (PyObj.strip_method message) as [user_message | e];
    cbn [py_bind]; [|reflexivity].
  destruct (String.eqb user_message ""); [reflexivity|].
  destruct (gemini_client a) as [post|]; cbn;
    destruct (db_connection a); try reflexivity;
    destruct (db_save_message a _ _); reflexivity.
Qed.

Lemma chat_limiter (w : world) :
  limiter (chat a get_json timestamp w).2 = limiter w.
Proof.
  pose proof (chat_frame w (limiter w)) as H.
  destruct w as [lim calls rows]; simpl in *.
  destruct (chat a get_json timestamp (mkWorld lim calls rows)) as [r w'].
  simpl in H. injection H as H. rewrite H. reflexivity.
Qed.

(** Without a client no call is made. *)
Lemma chat_without_client (w : world) :
  gemini_client a = None ->
  api_calls (chat a get_json timestamp w).2 = api_calls w.
Proof.
  intros Hnone. unfold chat, chat_try.
  destruct get_json as [data | e]; cbn [py_bind]; [|reflexivity].
  destruct (PyObj.get data "message" (JStr "")) as [message | e];
    cbn [py_bind]; [|reflexivity].
  destruct (PyObj.strip_method message) as [user_message | e];
    cbn [py_bind]; [|reflexivity].
  destruct (String.eqb user_message ""); [reflexivity|].
  rewrite Hnone. cbn.
  destruct (db_connection a); [|reflexivity].
  destruct (db_save_message a _ _); reflexivity.
Qed.

End Chat.

(** C3, as the source has it: the chat route does not consult the
    limiter. For a request whose message is not blank, with a client
    configured, it hands the prompt to the external client exactly once and
    replies 200 with the stripped message, the client's result for that
    prompt and the timestamp, whatever the limiter's state is, and it
    leaves that state as it was; the same request on a world that differs
    only in the limiter gives the same reply and the same calls. *)
Theorem chat_calls_client_whatever_the_limiter
    (a : App) (post : string -> py response) (data : json)
    (message timestamp : string) (w : world) :
  gemini_client a = Some post ->
  PyObj.get data "message" (JStr "") = Ok (JStr message) ->
  PyObj.strip message <> "" ->
  let out := chat a (Ok data) timestamp w in
  api_calls out.2 = api_calls w ++ [make_prompt (PyObj.strip message)]
  /\ out.1
     = mkReply 200
         (JObj [("user_message", JStr (PyObj.strip message));
                ("ai_response",
                 generate_content post (make_prompt (PyObj.strip message)));
                ("timestamp", JStr timestamp)])
  /\ limiter out.2 = limiter w
  /\ forall lim,
       chat a (Ok data) timestamp (mkWorld lim (api_calls w) (saved w))
       = (out.1, mkWorld lim (api_calls out.2) (saved out.2)).
Proof.
  intros Hclient Hmsg Hnonblank out. subst out.
  split; [|split; [|split]].
  - unfold chat, chat_try. cbn [py_bind]. rewrite Hmsg. cbn [py_bind PyObj.strip_method].
    apply String.eqb_neq in Hnonblank. rewrite Hnonblank, Hclient. cbn.
    destruct (db_connection a); [|reflexivity].
    destruct (db_save_message a _ _); reflexivity.
  - unfold chat, chat_try. cbn [py_bind]. rewrite Hmsg. cbn [py_bind PyObj.strip_method].
    apply String.eqb_neq in Hnonblank. rewrite Hnonblank, Hclient.
    reflexivity.
  - apply chat_limiter.
  - intros lim. apply chat_frame.
Qed.

Lemma chat_calls_client_whatever_the_limiter_witness :
  length (api_calls
    (chat (mkApp (Some (fun _ => Raise RequestException)) false (fun _ _ => Ok tt))
       (Ok (JObj [("message", JStr " hi ")])) "2024-01-01T00:00:00"
       (mkWorld (run rate_limiter (checks "default" [0; 0; 0; 0; 0]%Q)).2 [] [])).2)
  = 1%nat.
Proof.
  destruct (chat_calls_client_whatever_the_limiter
    (mkApp (Some (fun _ => Raise RequestException)) false (fun _ _ => Ok tt))
    (fun _ => Raise RequestException)
    (JObj [("message", JStr " hi ")]) " hi " "2024-01-01T00:00:00"
    (mkWorld (run rate_limiter (checks "default" [0; 0; 0; 0; 0]%Q)).2 [] []))
    as (Hcalls & _).
  - reflexivity.
  - reflexivity.
  - vm_compute. discriminate.
  - rewrite Hcalls. reflexivity.
Defined.

(** C3 as stated fails: with five admissions of the key "default" at time
    0 the limiter refuses that key at time 1, and a chat request made in
    that state still reaches the external client once and is answered
    200 with the client's text. *)
Lemma chat_calls_client_while_denied :
  let lim := (run rate_limiter (checks "default" [0; 0; 0; 0; 0]%Q)).2 in
  let answer := JObj [("candidates",
      JArr [JObj [("content", JObj [("parts", JArr [JObj [("text", JStr "Hi!")]])])]])] in
  let a := mkApp (Some (fun _ => Ok (mkResponse 200 (Ok answer) "")))
                 false (fun _ _ => Ok tt) in
  let out := chat a (Ok (JObj [("message", JStr "Hello")])) "2024-01-01T00:00:00"
               (mkWorld lim [] []) in
  (is_allowed lim "default" 1).1 = false
  /\ length (api_calls out.2) = 1%nat
  /\ out.1 = mkReply 200 (JObj [("user_message", JStr "Hello");
                               ("ai_response", JStr "Hi!");
                               ("timestamp", JStr "2024-01-01T00:00:00")]).
Proof. cbv zeta. repeat split; vm_compute; reflexivity. Qed.

(** * Further properties of the limiter *)

Section Agreement.

Variable key : string.

Lemma agree_on_refl (s : RateLimiter) : agree_on key s s.
Proof. repeat split. Qed.

(** A check of [key] on two limiters that agree on [key] gets the same
    answer and leaves them in agreement. *)
Lemma agree_on_is_allowed (s1 s2 : RateLimiter) (now : Q) :
  agree_on key s1 s2 ->
  (is_allowed s1 key now).1 = (is_allowed s2 key now).1
  /\ agree_on key (is_allowed s1 key now).2 (is_allowed s2 key now).2.
Proof.
  intros (Hm & Hw & Hwin).
  pose proof (is_allowed_window s1 key now) as [Ha1 Hw1].
  pose proof (is_allowed_window s2 key now) as [Ha2 Hw2].
  pose proof (is_allowed_config s1 key now) as [Hm1 Ht1].
  pose proof (is_allowed_config s2 key now) as [Hm2 Ht2].
  cbv zeta in *. rewrite Hm, Hw, Hwin in *.
  split; [congruence|]. repeat split; congruence.
Qed.

(** A call that is not a check of [key] leaves the window of [key] and the
    configuration as they are. *)
Lemma agree_on_unrelated (s : RateLimiter) (c : call) :
  is_check_of key c = false -> agree_on key (step s c).2 s.
Proof.
  intros Hc. pose proof (step_config s c) as [Hm Hw].
  repeat split; try assumption.
  destruct c as [k now | k now]; simpl in *.
  - apply bool_decide_eq_false in Hc.
    pose proof (is_allowed_other s k now key) as H.
    destruct (is_allowed s k now); simpl in *. apply H. auto.
  - pose proof (get_retry_after_window s k now key) as H.
    destruct (get_retry_after s k now); exact H.
Qed.

Lemma agree_on_trans (s1 s2 s3 : RateLimiter) :
  agree_on key s1 s2 -> agree_on key s2 s3 -> agree_on key s1 s3.
Proof. intros (? & ? & ?) (? & ? & ?). repeat split; congruence. Qed.

Lemma verdicts_projection (cs : list call) : forall s1 s2 : RateLimiter,
  agree_on key s1 s2 ->
  verdicts s1 key cs = verdicts s2 key (List.filter (is_check_of key) cs)
  /\ agree_on key (run s1 cs).2 (run s2 (List.filter (is_check_of key) cs)).2.
Proof.
  induction cs as [|c cs IH]; intros s1 s2 Hag; [split; [reflexivity | exact Hag]|].
  cbn [List.filter]. destruct (is_check_of key c) eqn:Hc.
  - destruct c as [k now | k now]; [|discriminate].
    simpl in Hc. apply bool_decide_eq_true in Hc. subst k.
    destruct (agree_on_is_allowed s1 s2 now Hag) as [Hans Hag'].
    specialize (IH _ _ Hag'). cbn [verdicts run step].
    destruct (is_allowed s1 key now) as [b1 s1'].
    destruct (is_allowed s2 key now) as [b2 s2']. simpl in *. subst b2.
    destruct IH as [IHv IHa].
    destruct (run s1' cs), (run s2' (List.filter (is_check_of key) cs)).
    destruct (decide (key = key)) as [_|Hne]; [|contradiction].
    split; [f_equal; exact IHv | exact IHa].
  - pose proof (agree_on_unrelated s1 c Hc) as Hun.
    specialize (IH (step s1 c).2 s2 (agree_on_trans _ _ _ Hun Hag)).
    cbn [verdicts run].
    destruct c as [k now | k now]; simpl in *.
    + apply bool_decide_eq_false in Hc.
      destruct (is_allowed s1 k now) as [b s1']; simpl in *.
      destruct (decide (k = key)) as [Heq|_]; [contradiction|].
      destruct IH as [IHv IHa]. destruct (run s1' cs). split; assumption.
    + destruct (get_retry_after s1 k now) as [z s1']; simpl in *.
      destruct IH as [IHv IHa]. destruct (run s1' cs). split; assumption.
Qed.

End Agreement.

(** X1: keys do not influence each other, and retry queries do not
    influence admission. The answers to the checks of a key, and the window
    the key ends with, are the same whether or not the calls for other keys
    and the [get_retry_after] calls are made. *)
Theorem verdicts_ignore_other_calls
    (self : RateLimiter) (key : string) (cs : list call) :
  verdicts self key cs = verdicts self key (List.filter (is_check_of key) cs)
  /\ window (run self cs).2 key
     = window (run self (List.filter (is_check_of key) cs)).2 key.
Proof.
  destruct (verdicts_projection key cs self self (agree_on_refl key self))
    as [Hv (_ & _ & Hw)].
  split; assumption.
Qed.

(** ** The window never holds more than [max_requests] entries *)

Lemma window_bounded_step (self : RateLimiter) (key : string) (c : call) :
  Z.of_nat (length (window self key)) <= max_requests self ->
  Z.of_nat (length (window (step self c).2 key)) <= max_requests self.
Proof.
  intros Hlen. destruct (is_check_of key c) eqn:Hc.
  - destruct c as [k now | k now]; [|discriminate].
    simpl in Hc. apply bool_decide_eq_true in Hc. subst k. simpl.
    pose proof (is_allowed_window self key now) as [_ Hwin]. cbv zeta in Hwin.
    pose proof (purge_length (now - inject_Z (time_window self)) (window self key)).
    destruct (is_allowed self key now) as [b s']; simpl in *. rewrite Hwin.
    destruct (_ <? _) eqn:Hok.
    + apply Z.ltb_lt in Hok. rewrite length_app. simpl. lia.
    + lia.
  - destruct (agree_on_unrelated key self c Hc) as (_ & _ & Hw).
    rewrite Hw. exact Hlen.
Qed.

(** X2: whatever calls are made, at whatever clock readings, a window that
    holds at most [max_requests] timestamps keeps doing so; memory per key
    is bounded by [max_requests]. *)
Theorem window_length_bounded
    (cs : list call) (self : RateLimiter) (key : string) :
  Z.of_nat (length (window self key)) <= max_requests self ->
  Z.of_nat (length (window (run self cs).2 key)) <= max_requests self.
Proof.
  revert self. induction cs as [|c cs IH]; intros self Hlen; [exact Hlen|].
  pose proof (window_bounded_step self key c Hlen) as H1.
  pose proof (step_config self c) as [Hm _].
  simpl. destruct (step self c) as [a s1]; simpl in *.
  rewrite <- Hm in H1. specialize (IH s1 H1).
  destruct (run s1 cs); simpl in *. rewrite <- Hm. exact IH.
Qed.

Lemma window_length_bounded_witness :
  Z.of_nat (length (window
    (run rate_limiter (checks "u1" [0; 0; 0; 0; 0; 0; 0; 1; 2]%Q)).2 "u1")) <= 5.
Proof.
  apply (window_length_bounded (checks "u1" [0; 0; 0; 0; 0; 0; 0; 1; 2]%Q)
           rate_limiter "u1").
  vm_compute. discriminate.
Defined.

(** ** Keys are never removed *)

Lemma step_dom (self : RateLimiter) (c : call) :
  dom (requests (step self c).2) = {[call_key c]} ∪ dom (requests self).
Proof.
  destruct c as [k now | k now]; simpl.
  - unfold is_allowed, requests_getitem.
    destruct (requests self !! k) as [d|] eqn:E; simpl;
      destruct (_ <? _); simpl; rewrite ?dom_insert_L; set_solver.
  - pose proof (get_retry_after_requests self k now) as H.
    destruct (get_retry_after self k now) as [z s']; simpl in *. rewrite H.
    destruct (requests self !! k) as [d|] eqn:E.
    + apply (elem_of_dom_2 (D := gset string)) in E. set_solver.
    + rewrite dom_insert_L. reflexivity.
Qed.

(** X3: the limiter never evicts a key. After any calls, the keys of the
    map are the keys it had before together with every key that was
    checked or queried. *)
Theorem keys_only_grow (cs : list call) (self : RateLimiter) :
  dom (requests (run self cs).2)
  = dom (requests self) ∪ list_to_set (map call_key cs).
Proof.
  revert self. induction cs as [|c cs IH]; intros self; simpl.
  - set_solver.
  - pose proof (step_dom self c) as Hd.
    destruct (step self c) as [a s1]; simpl in *.
    specialize (IH s1). destruct (run s1 cs); simpl in *.
    rewrite IH, Hd. set_solver.
Qed.

(** ** Lazy eviction on an ascending window *)

Lemma purge_sorted_fresh (b : Q) (w : list Q) :
  StronglySorted Qle w -> Forall (fun x => (b < x)%Q) (purge b w).
Proof.
  induction w as [|t w IH]; intros Hs; simpl; [constructor|].
  apply StronglySorted_cons in Hs as [Hall Hs].
  destruct (py_le t b) eqn:E; [exact (IH Hs)|].
  assert (Ht : (b < t)%Q).
  { apply Qnot_le_lt. intros Hle. apply py_le_spec in Hle. congruence. }
  constructor; [exact Ht|].
  eapply Forall_impl; [exact Hall|]. simpl. intros x Hx. lra.
Qed.

Lemma filter_all_true (f : Q -> bool) (w : list Q) :
  Forall (fun x => f x = true) w -> List.filter f w = w.
Proof.
  induction 1 as [|x w Hx _ IH]; simpl; [reflexivity|].
  rewrite Hx, IH. reflexivity.
Qed.

(** Popping stale entries off the front removes every stale entry when the
    window is in ascending order. *)
Lemma purge_sorted_filter (b : Q) (w : list Q) :
  StronglySorted Qle w -> purge b w = List.filter (py_lt b) w.
Proof.
  induction w as [|t w IH]; intros Hs; [reflexivity|].
  pose proof (purge_sorted_fresh b (t :: w) Hs) as Hfresh.
  apply StronglySorted_cons in Hs as [Hall Hs].
  simpl in *. unfold py_lt at 1. destruct (py_le t b) eqn:E.
  - unfold py_le in E. rewrite E. simpl. exact (IH Hs).
  - unfold py_le in E. rewrite E. simpl.
    apply Forall_cons in Hfresh as [_ Hfresh]. f_equal. symmetry.
    apply filter_all_true.
    eapply Forall_impl; [exact Hfresh|]. simpl. intros x Hx.
    apply py_lt_spec. exact Hx.
Qed.

Section Ascending.

Variable key : string.

Lemma ascending_past_later (self : RateLimiter) (tl tl' : Q) :
  (tl <= tl')%Q -> ascending_past key self tl -> ascending_past key self tl'.
Proof.
  intros Hle [Hs Hp]. split; [exact Hs|].
  eapply Forall_impl; [exact Hp|]. simpl. intros x Hx. lra.
Qed.

Lemma ascending_past_is_allowed (self : RateLimiter) (tl now : Q) :
  (tl <= now)%Q -> ascending_past key self tl ->
  ascending_past key (is_allowed self key now).2 now.
Proof.
  intros Hle H. apply (ascending_past_later _ _ now) in H; [|exact Hle].
  destruct H as [Hs Hp]. unfold ascending_past.
  pose proof (is_allowed_window self key now) as [_ Hwin].
  cbv zeta in Hwin. rewrite Hwin.
  destruct (purge_split (now - inject_Z (time_window self)) (window self key))
    as (d & Hw & _).
  set (kept := purge (now - inject_Z (time_window self)) (window self key)) in *.
  assert (Hks : StronglySorted Qle kept).
  { rewrite Hw in Hs. apply StronglySorted_app_1_r in Hs. exact Hs. }
  assert (Hkp : Forall (fun x => (x <= now)%Q) kept).
  { rewrite Hw in Hp. apply Forall_app in Hp as [_ Hp]. exact Hp. }
  destruct (_ <? _); [|split; assumption]. split.
  - apply StronglySorted_app_2; [|exact Hks|repeat constructor].
    intros x1 x2 H1 H2. apply list_elem_of_singleton in H2. subst x2.
    rewrite Forall_forall in Hkp. apply Hkp. exact H1.
  - apply Forall_app. split; [exact Hkp|].
    constructor; [apply Qle_refl | constructor].
Qed.

Lemma ascending_past_step (self : RateLimiter) (tl : Q) (c : call) :
  (tl <= call_time c)%Q -> ascending_past key self tl ->
  ascending_past key (step self c).2 (call_time c).
Proof.
  intros Hle H. destruct (is_check_of key c) eqn:Hc.
  - destruct c as [k now | k now]; [|discriminate].
    simpl in Hc. apply bool_decide_eq_true in Hc. subst k. simpl in *.
    pose proof (ascending_past_is_allowed self tl now Hle H) as H'.
    destruct (is_allowed self key now); exact H'.
  - destruct (agree_on_unrelated key self c Hc) as (_ & _ & Hw).
    unfold ascending_past. rewrite Hw.
    apply (ascending_past_later self tl); assumption.
Qed.

Lemma ascending_past_run (cs : list call) : forall (self : RateLimiter) (tl : Q) (c : call),
  times_from tl (cs ++ [c]) = true -> ascending_past key self tl ->
  ascending_past key (run self cs).2 (call_time c).
Proof.
  induction cs as [|c0 cs IH]; intros self tl c Hclock H; simpl in Hclock;
    apply andb_true_iff in Hclock as [Hle Hclock]; apply py_le_spec in Hle.
  - simpl. apply (ascending_past_later self tl); assumption.
  - pose proof (ascending_past_step self tl c0 Hle H) as H1.
    specialize (IH (step self c0).2 (call_time c0) c Hclock H1).
    simpl. destruct (step self c0) as [a self1]; simpl in *.
    destruct (run self1 cs); exact IH.
Qed.

End Ascending.

(** X4: on a limiter that started empty and was used while the clock did
    not go back, the window a check leaves behind is in ascending order,
    it consists of exactly the earlier entries younger than [time_window]
    (followed by [now] when the check is admitted), and with a positive
    [time_window] every entry [t] of it satisfies
    [now - time_window < t <= now]. *)
Theorem window_after_check_is_fresh_and_sorted
    (mr tw : option Z) (cs : list call) (key : string) (now : Q) :
  let self := (run (RateLimiter_init mr tw) cs).2 in
  let out := is_allowed self key now in
  monotone_clock (cs ++ [IsAllowed key now]) = true ->
  0 < time_window (RateLimiter_init mr tw) ->
  StronglySorted Qle (window out.2 key)
  /\ window out.2 key
     = List.filter (py_lt (now - inject_Z (time_window self))) (window self key)
       ++ (if out.1 then [now] else [])
  /\ Forall (fun t => (now - inject_Z (time_window self) < t)%Q /\ (t <= now)%Q)
       (window out.2 key).
Proof.
  intros self out Hclock HW. subst out.
  destruct (monotone_clock_from _ Hclock) as [tl Htl].
  pose proof (run_config cs (RateLimiter_init mr tw)) as [_ Hw]. fold self in Hw.
  assert (Hasc : ascending_past key self now).
  { apply (ascending_past_run key cs _ tl (IsAllowed key now) Htl).
    unfold ascending_past, window. simpl. rewrite lookup_empty.
    split; constructor. }
  pose proof (ascending_past_is_allowed key self now now (Qle_refl now) Hasc)
    as [Hs Hp].
  pose proof (is_allowed_window self key now) as [Hans Hwin].
  cbv zeta in Hans, Hwin.
  pose proof (purge_sorted_fresh (now - inject_Z (time_window self))
                (window self key) (proj1 Hasc)) as Hfresh.
  split; [exact Hs|]. split.
  - rewrite Hwin, Hans, <- purge_sorted_filter by exact (proj1 Hasc).
    destruct (_ <? _); [reflexivity | rewrite app_nil_r; reflexivity].
  - rewrite Forall_forall in Hp. rewrite Forall_forall. intros t Ht.
    split; [|apply Hp; exact Ht].
    rewrite Hwin in Ht. destruct (_ <? _).
    + apply elem_of_app in Ht as [Ht | Ht].
      * rewrite Forall_forall in Hfresh. apply Hfresh. exact Ht.
      * apply list_elem_of_singleton in Ht. subst t.
        assert (0 < inject_Z (time_window self))%Q.
        { rewrite Hw. change 0%Q with (inject_Z 0). rewrite <- Zlt_Qlt. exact HW. }
        lra.
    + rewrite Forall_forall in Hfresh. apply Hfresh. exact Ht.
Qed.

Lemma window_after_check_is_fresh_and_sorted_witness :
  StronglySorted Qle
    (window (is_allowed (run rate_limiter (checks "u1" [0; 10; 20]%Q)).2 "u1" 65).2
       "u1").
Proof.
  apply (window_after_check_is_fresh_and_sorted (Some 5) (Some 60)
           (checks "u1" [0; 10; 20]%Q) "u1" 65%Q).
  - vm_compute. reflexivity.
  - reflexivity.
Defined.

(** ** Refused checks leave no trace *)

Lemma purge_purge (b1 b2 : Q) (w : list Q) :
  (b1 <= b2)%Q -> purge b2 (purge b1 w) = purge b2 w.
Proof.
  intros Hle. induction w as [|t w IH]; [reflexivity|].
  simpl. destruct (py_le t b1) eqn:E1; [|reflexivity].
  assert (E2 : py_le t b2 = true).
  { apply py_le_spec. apply py_le_spec in E1. lra. }
  rewrite E2. exact IH.
Qed.

(** [is_allowed] in closed form, the insert-on-read included. *)
Lemma is_allowed_closed (self : RateLimiter) (key : string) (now : Q) :
  is_allowed self key now
  = let kept := purge (now - inject_Z (time_window self)) (window self key) in
    let ok := Z.of_nat (length kept) <? max_requests self in
    (ok, set_requests self
           (<[key := if ok then kept ++ [now] else kept]> (requests self))).
Proof.
  unfold is_allowed, requests_getitem, window. cbv zeta.
  destruct (requests self !! key) as [d|]; simpl;
    destruct (_ <? _); rewrite ?insert_insert_eq; reflexivity.
Qed.

(** X5: a refused check does not count. If the check of a key at [t1] is
    refused, a check of that key at a later time [t2] gives the same answer
    and leaves the same limiter as if the refused check had not been
    made. *)
Theorem refused_check_leaves_no_trace
    (self : RateLimiter) (key : string) (t1 t2 : Q) :
  (is_allowed self key t1).1 = false ->
  (t1 <= t2)%Q ->
  is_allowed (is_allowed self key t1).2 key t2 = is_allowed self key t2.
Proof.
  intros Hdeny Hle.
  assert (Hb : (t1 - inject_Z (time_window self) <= t2 - inject_Z (time_window self))%Q)
    by lra.
  rewrite (is_allowed_closed self key t1) in *. cbv zeta in *.
  cbn [fst snd] in *. rewrite Hdeny.
  rewrite !is_allowed_closed. cbv zeta.
  set (kept1 := purge (t1 - inject_Z (time_window self)) (window self key)).
  assert (Hwin : window (set_requests self (<[key := kept1]> (requests self))) key
                 = kept1)
    by (unfold window; simpl; rewrite lookup_insert_eq; reflexivity).
  rewrite Hwin. cbn [set_requests max_requests time_window requests].
  subst kept1. rewrite (purge_purge _ _ (window self key) Hb).
  rewrite insert_insert_eq. reflexivity.
Qed.

Lemma refused_check_leaves_no_trace_witness :
  is_allowed
    (is_allowed (run rate_limiter (checks "u1" [0; 0; 0; 0; 0]%Q)).2 "u1" 30).2
    "u1" 61
  = is_allowed (run rate_limiter (checks "u1" [0; 0; 0; 0; 0]%Q)).2 "u1" 61.
Proof.
  apply (refused_check_leaves_no_trace
           (run rate_limiter (checks "u1" [0; 0; 0; 0; 0]%Q)).2 "u1" 30%Q 61%Q).
  - vm_compute. reflexivity.
  - vm_compute. discriminate.
Defined.

(** ** How long to wait after a refusal *)

Lemma retry_exceeds_remaining (x : Q) :
  (x < inject_Z (Z.max 0 (py_int x)) + 1)%Q.
Proof.
  rewrite py_int_floor.
  pose proof (Qlt_floor x) as Hlt. rewrite inject_Z_plus in Hlt.
  assert (Hm : (inject_Z (Qfloor x) <= inject_Z (Z.max 0 (Qfloor x)))%Q)
    by (rewrite <- Zle_Qle; lia).
  change (inject_Z 1) with 1%Q in Hlt. lra.
Qed.

(** X6: the reported wait is a whole number of seconds rounded down, so
    waiting one second more than it is always enough. If a check at [now]
    is refused on a limiter with [max_requests > 0] whose window holds at
    most [max_requests] entries, and [r] is the wait reported at [now],
    every check of the key at a time [t' >= now + r + 1] is admitted. *)
Theorem retry_after_plus_one_suffices
    (self : RateLimiter) (key : string) (now t' : Q) :
  0 < max_requests self ->
  Z.of_nat (length (window self key)) <= max_requests self ->
  (is_allowed self key now).1 = false ->
  let s := (is_allowed self key now).2 in
  (now + inject_Z (get_retry_after s key now).1 + 1 <= t')%Q ->
  (is_allowed s key t').1 = true.
Proof.
  intros Hpos Hlen Hdeny s Hwait. subst s.
  pose proof (is_allowed_window self key now) as [Hans Hwin].
  pose proof (is_allowed_config self key now) as [Hm Hw].
  cbv zeta in Hans, Hwin. rewrite Hans in Hdeny. rewrite Hdeny in Hwin.
  apply Z.ltb_ge in Hdeny.
  pose proof (purge_length (now - inject_Z (time_window self)) (window self key))
    as Hpl.
  set (s := (is_allowed self key now).2) in *.
  rewrite get_retry_after_value, Hwin, Hw in Hwait.
  pose proof (is_allowed_window s key t') as [Hans' _].
  cbv zeta in Hans'. rewrite Hans', Hwin, Hm, Hw.
  destruct (purge (now - inject_Z (time_window self)) (window self key))
    as [|t0 rest] eqn:Hkept; [simpl in Hdeny; lia|].
  pose proof (retry_exceeds_remaining
                (inject_Z (time_window self) - (now - t0))) as Hr.
  assert (Hstale : py_le t0 (t' - inject_Z (time_window self)) = true)
    by (apply py_le_spec; lra).
  cbn [purge]. rewrite Hstale. apply Z.ltb_lt.
  pose proof (purge_length (t' - inject_Z (time_window self)) rest).
  simpl in Hpl. lia.
Qed.

Lemma retry_after_plus_one_suffices_witness :
  (is_allowed
     (is_allowed (run rate_limiter (checks "u1" [0; 0; 0; 0; 0]%Q)).2
        "u1" (1 # 2)).2
     "u1" (121 # 2)).1 = true.
Proof.
  apply (retry_after_plus_one_suffices
           (run rate_limiter (checks "u1" [0; 0; 0; 0; 0]%Q)).2
           "u1" (1 # 2) (121 # 2)).
  - reflexivity.
  - vm_compute. discriminate.
  - vm_compute. reflexivity.
  - vm_compute. discriminate.
Defined.

(** Waiting exactly the reported time can be too short: refused at 0.5
    with a reported wait of 59, the key is still refused at 59.5. *)
Example reported_wait_can_be_too_short :
  let s := (is_allowed (run rate_limiter (checks "u1" [0; 0; 0; 0; 0]%Q)).2
              "u1" (1 # 2)).2 in
  (get_retry_after s "u1" (1 # 2)).1 = 59
  /\ (is_allowed s "u1" ((1 # 2) + 59)).1 = false.
Proof. split; vm_compute; reflexivity. Qed.

(** ** The first check of a key *)

(** X7: a key that is not in the map is admitted at its first check exactly
    when [max_requests] is positive, whatever calls were made for other
    keys in between and whatever the clock shows. *)
Theorem first_check_of_a_key
    (self : RateLimiter) (key : string) (cs : list call) (now : Q) :
  requests self !! key = None ->
  Forall (fun c => call_key c <> key) cs ->
  (is_allowed (run self cs).2 key now).1 = (0 <? max_requests self)
  /\ window (is_allowed (run self cs).2 key now).2 key
     = (if 0 <? max_requests self then [now] else []).
Proof.
  intros Hnone Hother.
  assert (Hfilter : List.filter (is_check_of key) cs = []).
  { induction Hother as [|c cs Hc _ IH]; [reflexivity|].
    simpl. rewrite IH. destruct c as [k t | k t]; simpl in *; [|reflexivity].
    rewrite bool_decide_eq_false_2 by exact Hc. reflexivity. }
  destruct (verdicts_projection key cs self self (agree_on_refl key self))
    as [_ (_ & _ & Hwin)].
  rewrite Hfilter in Hwin. simpl in Hwin.
  pose proof (run_config cs self) as [Hm _].
  pose proof (is_allowed_window (run self cs).2 key now) as [Hans Hw'].
  cbv zeta in Hans, Hw'. rewrite Hans, Hw', Hwin, Hm.
  unfold window. rewrite Hnone. simpl. split; reflexivity.
Qed.

Lemma first_check_of_a_key_witness :
  (is_allowed (run rate_limiter (checks "u2" [0; 0; 0; 0; 0; 0]%Q)).2 "u1" 0).1
  = true.
Proof.
  apply (first_check_of_a_key rate_limiter "u1"
           (checks "u2" [0; 0; 0; 0; 0; 0]%Q) 0%Q).
  - reflexivity.
  - repeat constructor; simpl; discriminate.
Defined.

(** * Further properties of the client *)

Section AvailableModels.

Lemma py_map_names (items : list json) :
  match model_names items with
  | Some names => py_map name_of items = Ok names
  | None => exists e, py_map name_of items = Raise e
  end.
Proof.
  induction items as [|item items IH]; [reflexivity|].
  simpl. destruct item as [| b | q | s | l | fields]; simpl; eauto.
  destruct (PyObj.lookup_field "name" fields) as [n|]; simpl; eauto.
  destruct (model_names items) as [names|].
  - rewrite IH. reflexivity.
  - destruct IH as [e He]. rewrite He. eauto.
Qed.

(** Iterating over a string or over the keys of a dict yields strings,
    which cannot be subscripted by ["name"]. *)
Lemma py_map_strings (items : list json) :
  Forall (fun v => exists s, v = JStr s) items ->
  py_map name_of items = Ok [] \/ exists e, py_map name_of items = Raise e.
Proof.
  destruct 1 as [|v items [s ->] _]; [left; reflexivity|].
  right. exists TypeError. reflexivity.
Qed.

Lemma chars_strings (s : string) :
  Forall (fun v => exists c, v = JStr c) (chars s).
Proof. induction s; simpl; constructor; eauto. Qed.

Lemma keys_strings (fields : list (string * json)) :
  Forall (fun v => exists c, v = JStr c) (map (fun kv => JStr kv.1) fields).
Proof. induction fields; simpl; constructor; eauto. Qed.

Lemma get_available_models_listing (models : json) :
  match (items <- py_iter models ;; py_map name_of items) with
  | Ok names =>
      names = match models with
              | JArr items => default [] (model_names items)
              | _ => []
              end
  | Raise _ =>
      match models with
      | JArr items => model_names items = None
      | _ => True
      end
  end.
Proof.
  destruct models as [| b | q | s | items | fields]; simpl; auto.
  - destruct (py_map_strings _ (chars_strings s)) as [H | [e H]];
      rewrite H; auto.
  - pose proof (py_map_names items) as H.
    destruct (model_names items) as [names|].
    + rewrite H. reflexivity.
    + destruct H as [e H]. rewrite H. reflexivity.
  - destruct (py_map_strings _ (keys_strings fields)) as [H | [e H]];
      rewrite H; auto.
Qed.

End AvailableModels.

(** X8: [get_available_models] never raises, and its result is all or
    nothing. It is the list of the [name] entries, in order, when the
    answer has status 200 and a JSON object body whose [models] entry is a
    list of objects that all have a [name]; in every other case (another
    status, a failed request, a body that is not a JSON object, a single
    entry without a name) it is the empty list. *)
Theorem get_available_models_all_or_nothing (got : py response) :
  get_available_models got
  = match got with
    | Raise _ => []
    | Ok r =>
        if status_code r =? 200 then
          match json_ r with
          | Ok (JObj fields) =>
              match default (JArr []) (PyObj.lookup_field "models" fields) with
              | JArr items => default [] (model_names items)
              | _ => []
              end
          | _ => []
          end
        else []
    end.
Proof.
  unfold get_available_models, get_available_models_try.
  destruct got as [r | e]; cbn [py_bind]; [|reflexivity].
  destruct (status_code r =? 200); [|reflexivity].
  destruct (json_ r) as [[| b | q | s | l | fields] | e]; cbn; try reflexivity.
  pose proof (get_available_models_listing
                (default (JArr []) (PyObj.lookup_field "models" fields))) as H.
  cbv zeta in H.
  destruct (py_bind (py_iter _) _) as [names | e] eqn:E.
  - exact H.
  - destruct (default (JArr []) (PyObj.lookup_field "models" fields));
      try reflexivity.
    rewrite H. reflexivity.
Qed.

Lemma model_names_Forall2 (items : list json) : forall names,
  model_names items = Some names ->
  Forall2 (fun item n => field "name" item = Some n) items names.
Proof.
  induction items as [|item items IH]; intros names H; simpl in H.
  - injection H as <-. constructor.
  - destruct item as [| b | q | s | l | fields]; try discriminate.
    destruct (PyObj.lookup_field "name" fields) as [n|] eqn:En; [|discriminate].
    destruct (model_names items) as [ns|]; [|discriminate].
    injection H as <-. constructor; [exact En | apply IH; reflexivity].
Qed.

(** X9: every name [get_available_models] returns is the [name] of the
    model at the same position of the provider's list; a non-empty result
    has one name per listed model. *)
Theorem get_available_models_names
    (r : response) (fields : list (string * json)) (items : list json) :
  status_code r = 200 ->
  json_ r = Ok (JObj fields) ->
  PyObj.lookup_field "models" fields = Some (JArr items) ->
  get_available_models (Ok r) = []
  \/ Forall2 (fun item n => field "name" item = Some n)
       items (get_available_models (Ok r)).
Proof.
  intros Hs Hj Hm. unfold get_available_models, get_available_models_try.
  cbn [py_bind]. rewrite Hs, Hj. cbn [Z.eqb Pos.eqb py_bind PyObj.get].
  rewrite Hm. cbn [default from_option id py_bind py_iter].
  pose proof (py_map_names items) as H.
  destruct (model_names items) as [names|] eqn:E.
  - rewrite H. right. apply model_names_Forall2. exact E.
  - destruct H as [e He]. rewrite He. left. reflexivity.
Qed.

Lemma get_available_models_names_witness :
  get_available_models
    (Ok (mkResponse 200
       (Ok (JObj [("models", JArr [JObj [("name", JStr "models/a")];
                                   JObj [("name", JStr "models/b")]])])) ""))
  = []
  \/ Forall2 (fun item n => field "name" item = Some n)
       [JObj [("name", JStr "models/a")]; JObj [("name", JStr "models/b")]]
       (get_available_models
          (Ok (mkResponse 200
             (Ok (JObj [("models", JArr [JObj [("name", JStr "models/a")];
                                         JObj [("name", JStr "models/b")]])])) ""))).
Proof.
  apply (get_available_models_names
           (mkResponse 200
              (Ok (JObj [("models", JArr [JObj [("name", JStr "models/a")];
                                          JObj [("name", JStr "models/b")]])])) "")
           [("models", JArr [JObj [("name", JStr "models/a")];
                             JObj [("name", JStr "models/b")]])]
           [JObj [("name", JStr "models/a")]; JObj [("name", JStr "models/b")]]).
  - reflexivity.
  - reflexivity.
  - reflexivity.
Defined.

Example get_available_models_one_bad_entry :
  get_available_models
    (Ok (mkResponse 200
       (Ok (JObj [("models", JArr [JObj [("name", JStr "models/a")];
                                   JObj [("title", JStr "b")]])])) ""))
  = [].
Proof. vm_compute. reflexivity. Qed.

(** * Further properties of the chat route *)

Section Strip.

Lemma all_space_rev_app (s1 s2 : string) :
  all_space (String.rev_app s1 s2) = all_space s1 && all_space s2.
Proof.
  revert s2. induction s1 as [|c s1 IH]; intros s2; simpl; [reflexivity|].
  rewrite IH. simpl. destruct (PyObj.isspace c), (all_space s1); reflexivity.
Qed.

Lemma all_space_rev (s : string) : all_space (String.rev s) = all_space s.
Proof. unfold String.rev. rewrite all_space_rev_app. simpl. apply andb_true_r. Qed.

Lemma all_space_lstrip (s : string) : all_space (PyObj.lstrip s) = all_space s.
Proof.
  induction s as [|c s IH]; simpl; [reflexivity|].
  destruct (PyObj.isspace c) eqn:E; simpl; [exact IH | rewrite E; reflexivity].
Qed.

Lemma lstrip_empty (s : string) :
  String.eqb (PyObj.lstrip s) "" = all_space s.
Proof.
  induction s as [|c s IH]; simpl; [reflexivity|].
  destruct (PyObj.isspace c); simpl; [exact IH | reflexivity].
Qed.

Lemma rev_app_empty (s1 s2 : string) :
  String.eqb (String.rev_app s1 s2) "" = String.eqb s1 "" && String.eqb s2 "".
Proof.
  revert s2. induction s1 as [|c s1 IH]; intros s2; simpl; [reflexivity|].
  rewrite IH. simpl. apply andb_false_r.
Qed.

(** [strip] gives the empty string exactly on the strings that consist of
    whitespace only. *)
Lemma strip_empty (s : string) : String.eqb (PyObj.strip s) "" = all_space s.
Proof.
  unfold PyObj.strip, String.rev at 1.
  rewrite rev_app_empty. simpl. rewrite andb_true_r.
  rewrite lstrip_empty, all_space_rev, all_space_lstrip. reflexivity.
Qed.

End Strip.

Section ChatReplies.

Variables (a : App) (timestamp : string) (w : world).

(** X10: the status of the reply is decided by the request body alone. It
    is 400 when the body is a JSON object whose [message] is absent or a
    string of whitespace only, 200 when [message] is a string with a
    character that is not whitespace, and 500 in every other case: no JSON
    body, a body that is not an object, a [message] that is not a
    string. *)
Theorem chat_status (get_json : py json) :
  reply_status (chat a get_json timestamp w).1
  = match get_json with
    | Ok (JObj fields) =>
        match default (JStr "") (PyObj.lookup_field "message" fields) with
        | JStr message => if all_space message then 400 else 200
        | _ => 500
        end
    | _ => 500
    end.
Proof.
  unfold chat, chat_try.
  destruct get_json as [[| b | q | s | l | fields] | e]; cbn; try reflexivity.
  destruct (default (JStr "") (PyObj.lookup_field "message" fields))
    as [| b | q | message | l | fields']; cbn; try reflexivity.
  rewrite strip_empty. destruct (all_space message); [reflexivity|].
  destruct (gemini_client a); reflexivity.
Qed.

(** X11: a reply other than 200 has no effect: no call to the external
    client, nothing saved, the limiter untouched. *)
Theorem chat_error_has_no_effect (get_json : py json) :
  reply_status (chat a get_json timestamp w).1 <> 200 ->
  (chat a get_json timestamp w).2 = w.
Proof.
  unfold chat, chat_try.
  destruct get_json as [data | e]; cbn [py_bind]; [|reflexivity].
  destruct (PyObj.get data "message" (JStr "")) as [message | e];
    cbn [py_bind]; [|reflexivity].
  destruct (PyObj.strip_method message) as [user_message | e];
    cbn [py_bind]; [|reflexivity].
  destruct (String.eqb user_message ""); [reflexivity|].
  intros H. exfalso. apply H.
  destruct (gemini_client a); reflexivity.
Qed.

(** X12: one request makes at most one call to the external client, and
    it makes one exactly when it is answered 200 with a client
    configured. *)
Theorem chat_calls_at_most_once (get_json : py json) :
  (api_calls (chat a get_json timestamp w).2 = api_calls w
   /\ (reply_status (chat a get_json timestamp w).1 <> 200
       \/ gemini_client a = None))
  \/ (exists prompt,
        api_calls (chat a get_json timestamp w).2 = api_calls w ++ [prompt]
        /\ reply_status (chat a get_json timestamp w).1 = 200
        /\ gemini_client a <> None).
Proof.
  unfold chat, chat_try.
  destruct get_json as [data | e]; cbn [py_bind];
    [|left; split; [reflexivity | left; discriminate]].
  destruct (PyObj.get data "message" (JStr "")) as [message | e];
    cbn [py_bind]; [|left; split; [reflexivity | left; discriminate]].
  destruct (PyObj.strip_method message) as [user_message | e];
    cbn [py_bind]; [|left; split; [reflexivity | left; discriminate]].
  destruct (String.eqb user_message "");
    [left; split; [reflexivity | left; discriminate]|].
  destruct (gemini_client a) as [post|]; cbn.
  - right. exists (make_prompt user_message). repeat split; [|discriminate].
    destruct (db_connection a); [|reflexivity].
    destruct (db_save_message a _ _); reflexivity.
  - left. split; [|right; reflexivity].
    destruct (db_connection a); [|reflexivity].
    destruct (db_save_message a _ _); reflexivity.
Qed.

End ChatReplies.

Lemma chat_error_has_no_effect_witness :
  (chat (mkApp (Some (fun _ => Raise RequestException)) true (fun _ _ => Ok tt))
     (Ok (JArr [JStr "message"])) "2024-01-01T00:00:00"
     (mkWorld rate_limiter [] [])).2
  = mkWorld rate_limiter [] [].
Proof.
  apply (chat_error_has_no_effect
           (mkApp (Some (fun _ => Raise RequestException)) true (fun _ _ => Ok tt))
           "2024-01-01T00:00:00" (mkWorld rate_limiter [] [])
           (Ok (JArr [JStr "message"]))).
  vm_compute. discriminate.
Defined.

(** ** Persistence is best effort *)

(** X13: saving is best effort. The reply, the calls to the external
    client and the limiter are the same whatever [db.connection] and
    [db.save_message] do; and the only thing a request can save is one row
    holding the user message and the answer that the reply carries. *)
Theorem chat_persistence_is_best_effort
    (a : App) (get_json : py json) (timestamp : string) (w : world) :
  (forall (connected : bool) (save : string -> json -> py unit),
     let out := chat (mkApp (gemini_client a) connected save) get_json timestamp w in
     out.1 = (chat a get_json timestamp w).1
     /\ api_calls out.2 = api_calls (chat a get_json timestamp w).2
     /\ limiter out.2 = limiter w)
  /\ (saved (chat a get_json timestamp w).2 = saved w
      \/ exists user_message ai_response,
           saved (chat a get_json timestamp w).2
           = saved w ++ [(user_message, ai_response)]
           /\ (chat a get_json timestamp w).1
              = mkReply 200 (JObj [("user_message", JStr user_message);
                                   ("ai_response", ai_response);
                                   ("timestamp", JStr timestamp)])).
Proof.
  split.
  - intros connected save out. subst out. unfold chat, chat_try.
    destruct get_json as [data | e]; cbn [py_bind]; [|auto].
    destruct (PyObj.get data "message" (JStr "")) as [message | e];
      cbn [py_bind]; [|auto].
    destruct (PyObj.strip_method message) as [user_message | e];
      cbn [py_bind]; [|auto].
    destruct (String.eqb user_message ""); [auto|].
    destruct (gemini_client a) as [post|]; cbn;
      destruct connected, (db_connection a); cbn;
      repeat match goal with
             | |- context [match ?x with Ok _ => _ | Raise _ => _ end] =>
                 destruct x
             end; auto.
  - unfold chat, chat_try.
    destruct get_json as [data | e]; cbn [py_bind]; [|auto].
    destruct (PyObj.get data "message" (JStr "")) as [message | e];
      cbn [py_bind]; [|auto].
    destruct (PyObj.strip_method message) as [user_message | e];
      cbn [py_bind]; [|auto].
    destruct (String.eqb user_message ""); [auto|].
    destruct (gemini_client a) as [post|]; cbn;
      destruct (db_connection a); cbn; auto;
      destruct (db_save_message a _ _); cbn; eauto.
Qed.

(** ** The message the route works with *)

Section StripClean.

Lemma append_cons (c : ascii) (s1 s2 : string) :
  String.append (String c s1) s2 = String c (String.append s1 s2).
Proof. reflexivity. Qed.

Lemma append_empty_r (s : string) : String.append s "" = s.
Proof.
  induction s as [|c s IH]; [reflexivity|].
  rewrite append_cons, IH. reflexivity.
Qed.

Lemma append_assoc (s1 s2 s3 : string) :
  String.append (String.append s1 s2) s3 = String.append s1 (String.append s2 s3).
Proof.
  induction s1 as [|c s1 IH]; [reflexivity|].
  rewrite !append_cons, IH. reflexivity.
Qed.

Lemma rev_app_append (s1 s2 : string) :
  String.rev_app s1 s2 = String.append (String.rev s1) s2.
Proof.
  unfold String.rev. revert s2.
  induction s1 as [|c s1 IH]; intros s2; simpl; [reflexivity|].
  rewrite (IH (String c s2)), (IH (String c "")), append_assoc. reflexivity.
Qed.

Lemma rev_append (s1 s2 : string) :
  String.rev (String.append s1 s2)
  = String.append (String.rev s2) (String.rev s1).
Proof.
  induction s1 as [|c s1 IH].
  - change (String.append "" s2) with s2.
    change (String.rev "") with ""%string.
    rewrite append_empty_r. reflexivity.
  - rewrite append_cons. unfold String.rev at 1 3. cbn [String.rev_app].
    rewrite !rev_app_append, IH, append_assoc. reflexivity.
Qed.

Lemma rev_involutive (s : string) : String.rev (String.rev s) = s.
Proof.
  induction s as [|c s IH]; [reflexivity|].
  unfold String.rev at 2. simpl.
  rewrite rev_app_append, rev_append, IH. reflexivity.
Qed.

Lemma starts_clean_lstrip (s : string) : starts_clean (PyObj.lstrip s) = true.
Proof.
  induction s as [|c s IH]; simpl; [reflexivity|].
  destruct (PyObj.isspace c) eqn:E; [exact IH | simpl; rewrite E; reflexivity].
Qed.

Lemma lstrip_clean (s : string) : starts_clean s = true -> PyObj.lstrip s = s.
Proof.
  destruct s as [|c s]; simpl; [reflexivity|].
  destruct (PyObj.isspace c); [discriminate | reflexivity].
Qed.

(** [lstrip] removes a prefix. *)
Lemma lstrip_suffix (s : string) :
  exists p, s = String.append p (PyObj.lstrip s).
Proof.
  induction s as [|c s IH]; simpl; [exists ""; reflexivity|].
  destruct (PyObj.isspace c).
  - destruct IH as [p Hp]. exists (String c p).
    rewrite append_cons. f_equal. exact Hp.
  - exists "". reflexivity.
Qed.

Lemma starts_clean_prefix (s1 s2 : string) :
  starts_clean (String.append s1 s2) = true -> starts_clean s1 = true.
Proof. destruct s1; [reflexivity|]. rewrite append_cons. auto. Qed.

(** [strip] leaves no whitespace at either end, and stripping twice is
    stripping once. *)
Lemma strip_clean (s : string) :
  starts_clean (PyObj.strip s) = true
  /\ starts_clean (String.rev (PyObj.strip s)) = true
  /\ PyObj.strip (PyObj.strip s) = PyObj.strip s.
Proof.
  unfold PyObj.strip.
  set (t := PyObj.lstrip s).
  set (u := PyObj.lstrip (String.rev t)).
  assert (Hu : starts_clean u = true) by apply starts_clean_lstrip.
  assert (Hru : starts_clean (String.rev u) = true).
  { destruct (lstrip_suffix (String.rev t)) as [p Hp]. fold u in Hp.
    apply (f_equal String.rev) in Hp.
    rewrite rev_involutive, rev_append in Hp.
    apply (starts_clean_prefix _ (String.rev p)). rewrite <- Hp.
    apply starts_clean_lstrip. }
  split; [exact Hru|]. split.
  - rewrite rev_involutive. exact Hu.
  - rewrite (lstrip_clean _ Hru), rev_involutive, (lstrip_clean _ Hu).
    reflexivity.
Qed.

(** [lstrip] removes whitespace only. *)
Lemma lstrip_split (s : string) :
  exists p, s = String.append p (PyObj.lstrip s) /\ all_space p = true.
Proof.
  induction s as [|c s IH]; simpl; [exists ""; split; reflexivity|].
  destruct (PyObj.isspace c) eqn:E.
  - destruct IH as (p & Hp & Hsp). exists (String c p). split.
    + rewrite append_cons. f_equal. exact Hp.
    + simpl. rewrite E. exact Hsp.
  - exists "". split; reflexivity.
Qed.

(** [strip] returns its argument without the whitespace around it. *)
Lemma strip_split (s : string) :
  exists before after,
    s = String.append before (String.append (PyObj.strip s) after)
    /\ all_space before = true /\ all_space after = true.
Proof.
  unfold PyObj.strip.
  destruct (lstrip_split s) as (p & Hp & Hsp).
  destruct (lstrip_split (String.rev (PyObj.lstrip s))) as (q & Hq & Hsq).
  exists p, (String.rev q). split; [|split].
  - rewrite Hp at 1. f_equal.
    apply (f_equal String.rev) in Hq.
    rewrite rev_involutive, rev_append in Hq. exact Hq.
  - exact Hsp.
  - rewrite all_space_rev. exact Hsq.
Qed.

End StripClean.

(** X14: the user message a 200 reply echoes is the request's message
    stripped. The request body is then an object whose [message] is a
    string, and the echoed message is that string without the whitespace
    before and after it: it is not empty, it neither starts nor ends with
    whitespace, and stripping it again changes nothing. *)
Theorem chat_user_message_is_stripped
    (a : App) (get_json : py json) (timestamp : string) (w : world) :
  reply_status (chat a get_json timestamp w).1 = 200 ->
  exists fields message before after ai_response,
    get_json = Ok (JObj fields)
    /\ default (JStr "") (PyObj.lookup_field "message" fields) = JStr message
    /\ message
       = String.append before (String.append (PyObj.strip message) after)
    /\ all_space before = true
    /\ all_space after = true
    /\ reply_body (chat a get_json timestamp w).1
       = JObj [("user_message", JStr (PyObj.strip message));
               ("ai_response", ai_response);
               ("timestamp", JStr timestamp)]
    /\ PyObj.strip message <> ""%string
    /\ starts_clean (PyObj.strip message) = true
    /\ starts_clean (String.rev (PyObj.strip message)) = true
    /\ PyObj.strip (PyObj.strip message) = PyObj.strip message.
Proof.
  unfold chat, chat_try.
  destruct get_json as [data | e]; cbn [py_bind]; [|discriminate].
  destruct data as [| b | q | s | l | fields]; cbn; try discriminate.
  destruct (default (JStr "") (PyObj.lookup_field "message" fields))
    as [| b | q | m | l | f] eqn:Em; cbn; try discriminate.
  destruct (String.eqb (PyObj.strip m) "") eqn:E; [discriminate|].
  intros _. apply String.eqb_neq in E.
  destruct (strip_clean m) as (H1 & H2 & H3).
  destruct (strip_split m) as (before & after & Hsplit & Hb & Ha).
  exists fields, m, before, after.
  destruct (gemini_client a) as [post|]; cbn; eexists;
    repeat (split; [first [reflexivity | eassumption]|]); assumption.
Qed.

Lemma chat_user_message_is_stripped_witness :
  exists fields message before after ai_response,
    Ok (JObj [("message", JStr "  hello there  ")]) = Ok (JObj fields)
    /\ default (JStr "") (PyObj.lookup_field "message" fields) = JStr message
    /\ message
       = String.append before (String.append (PyObj.strip message) after)
    /\ all_space before = true
    /\ all_space after = true
    /\ reply_body
         (chat (mkApp None false (fun _ _ => Ok tt))
            (Ok (JObj [("message", JStr "  hello there  ")]))
            "2024-01-01T00:00:00" (mkWorld rate_limiter [] [])).1
       = JObj [("user_message", JStr (PyObj.strip message));
               ("ai_response", ai_response);
               ("timestamp", JStr "2024-01-01T00:00:00")]
    /\ PyObj.strip message <> ""%string
    /\ starts_clean (PyObj.strip message) = true
    /\ starts_clean (String.rev (PyObj.strip message)) = true
    /\ PyObj.strip (PyObj.strip message) = PyObj.strip message.
Proof.
  apply (chat_user_message_is_stripped
           (mkApp None false (fun _ _ => Ok tt))
           (Ok (JObj [("message", JStr "  hello there  ")])) "2024-01-01T00:00:00"
           (mkWorld rate_limiter [] [])).
  reflexivity.
Defined.

Example strip_hello :
  PyObj.strip "  hello there  " = "hello there"%string.
Proof. vm_compute. reflexivity. Qed.

(** * The limiter admits exactly while quota is left *)

Section Exact.

Variable key : string.

Lemma recorded_later (self : RateLimiter) (tl tl' : Q) (A : list Q) :
  (tl <= tl')%Q -> recorded key self tl A -> recorded key self tl' A.
Proof.
  intros Hle [(gone & HA & Hgone) Hasc]. split.
  - exists gone. split; [exact HA|].
    eapply Forall_impl; [exact Hgone|]. simpl. intros x Hx. lra.
  - apply (ascending_past_later key self tl); assumption.
Qed.

Lemma recorded_step (self : RateLimiter) (tl : Q) (A : list Q) (c : call) :
  (tl <= call_time c)%Q -> recorded key self tl A ->
  recorded key (step self c).2 (call_time c) (A ++ admitted self key [c]).
Proof.
  intros Hle H.
  pose proof (ascending_past_step key self tl c Hle (proj2 H)) as Hasc.
  apply (recorded_later _ _ (call_time c)) in H; [|exact Hle].
  destruct H as [(gone & HA & Hgone) _].
  pose proof (step_config self c) as [_ Hw].
  split; [|exact Hasc]. rewrite Hw. clear Hasc Hw.
  destruct (is_check_of key c) eqn:Hc.
  - destruct c as [k now | k now]; [|discriminate].
    simpl in Hc. apply bool_decide_eq_true in Hc. subst k. simpl in *.
    pose proof (is_allowed_window self key now) as [Hans Hwin].
    cbv zeta in Hans, Hwin.
    destruct (purge_split (now - inject_Z (time_window self)) (window self key))
      as (dropped & Hsplit & Hdropped).
    destruct (is_allowed self key now) as [b s']; simpl in *.
    destruct (decide (key = key)) as [_|]; [|contradiction].
    exists (gone ++ dropped). split.
    + rewrite Hwin, <- Hans.
      destruct b; rewrite ?app_nil_r, HA, Hsplit at 1;
        rewrite <- ?app_assoc; reflexivity.
    + apply Forall_app. split; assumption.
  - destruct (agree_on_unrelated key self c Hc) as (_ & _ & Hsame).
    assert (Hnone : admitted self key [c] = []).
    { destruct c as [k now | k now]; simpl in *.
      - apply bool_decide_eq_false in Hc.
        destruct (is_allowed self k now) as [[|] ?]; [|reflexivity].
        destruct (decide (k = key)); [contradiction | reflexivity].
      - destruct (get_retry_after self k now); reflexivity. }
    rewrite Hnone, app_nil_r, Hsame. exists gone. split; assumption.
Qed.

Lemma run_cons_state (self : RateLimiter) (c : call) (cs : list call) :
  (run self (c :: cs)).2 = (run (step self c).2 cs).2.
Proof.
  cbn [run]. destruct (step self c) as [a s1]. cbn [snd].
  destruct (run s1 cs). reflexivity.
Qed.

Lemma recorded_run (cs : list call) : forall (self : RateLimiter) (tl : Q) (A : list Q) (c : call),
  times_from tl (cs ++ [c]) = true -> recorded key self tl A ->
  recorded key (run self cs).2 (call_time c) (A ++ admitted self key cs).
Proof.
  induction cs as [|c0 cs IH]; intros self tl A c Hclock H; simpl in Hclock;
    apply andb_true_iff in Hclock as [Hle Hclock]; apply py_le_spec in Hle.
  - simpl. rewrite app_nil_r. apply (recorded_later self tl); assumption.
  - pose proof (recorded_step self tl A c0 Hle H) as H1.
    specialize (IH (step self c0).2 (call_time c0) _ c Hclock H1).
    rewrite admitted_cons, app_assoc, run_cons_state. exact IH.
Qed.

(** When the admissions and the window agree, the entries the purge keeps
    are as many as the admissions inside the trailing interval. *)
Lemma recorded_count (self : RateLimiter) (now : Q) (A : list Q) :
  recorded key self now A ->
  length (purge (now - inject_Z (time_window self)) (window self key))
  = inside (time_window self) now A.
Proof.
  intros [(gone & HA & Hgone) [Hs Hp]].
  rewrite HA, inside_app.
  rewrite (inside_stale _ now (now - inject_Z (time_window self)) gone)
    by (try exact Hgone; apply Qle_refl).
  rewrite purge_sorted_filter by exact Hs. unfold inside. simpl. f_equal.
  clear - Hp. induction Hp as [|x w Hx _ IH]; simpl; [reflexivity|].
  unfold in_trailing at 1.
  assert (E : py_le x now = true) by (apply py_le_spec; exact Hx).
  rewrite E, andb_true_r, IH. reflexivity.
Qed.

End Exact.

(** X15: the limiter is exact. On a limiter that started empty and was
    used while the clock did not go back, a check of a key at [now] is
    admitted if and only if fewer than [max_requests] of the key's earlier
    admissions lie in the interval [(now - time_window, now]]. *)
Theorem admitted_iff_quota_left
    (mr tw : option Z) (cs : list call) (key : string) (now : Q) :
  monotone_clock (cs ++ [IsAllowed key now]) = true ->
  (is_allowed (run (RateLimiter_init mr tw) cs).2 key now).1
  = (Z.of_nat (inside (time_window (RateLimiter_init mr tw)) now
                 (admitted (RateLimiter_init mr tw) key cs))
     <? max_requests (RateLimiter_init mr tw)).
Proof.
  intros Hclock.
  destruct (monotone_clock_from _ Hclock) as [tl Htl].
  pose proof (run_config cs (RateLimiter_init mr tw)) as [Hm Hw].
  assert (Hrec : recorded key (RateLimiter_init mr tw) tl []).
  { assert (Hempty : window (RateLimiter_init mr tw) key = [])
      by (unfold window; simpl; rewrite lookup_empty; reflexivity).
    unfold recorded, ascending_past. rewrite Hempty.
    split; [exists []; split; [reflexivity | constructor] | split; constructor]. }
  pose proof (recorded_run key cs _ tl [] (IsAllowed key now) Htl Hrec) as H.
  rewrite app_nil_l in H. simpl in H.
  apply recorded_count in H. rewrite Hw in H.
  pose proof (is_allowed_window (run (RateLimiter_init mr tw) cs).2 key now)
    as [Hans _].
  cbv zeta in Hans. rewrite Hans, Hm, Hw, H. reflexivity.
Qed.

Lemma admitted_iff_quota_left_witness :
  (is_allowed (run rate_limiter (checks "u1" [0; 0; 0; 10; 20]%Q)).2 "u1" 60).1
  = (Z.of_nat (inside 60 60 (admitted rate_limiter "u1"
                               (checks "u1" [0; 0; 0; 10; 20]%Q))) <? 5).
Proof.
  apply (admitted_iff_quota_left (Some 5) (Some 60)
           (checks "u1" [0; 0; 0; 10; 20]%Q) "u1" 60%Q).
  vm_compute. reflexivity.
Defined.

(** * A failing provider and the chat route *)

Lemma generate_content_failure_messages (post : string -> py response) (text : string) :
  (forall r, post text = Ok r -> status_code r <> 200) ->
  exists message,
    In message [quota_message; api_error_message; request_error_message;
                unexpected_error_message]
    /\ generate_content post text = JStr message.
Proof.
  intros Hnot. destruct (post text) as [r | e] eqn:Hp.
  - specialize (Hnot r eq_refl).
    destruct (Z.eq_dec (status_code r) 429) as [Hs | Hs].
    + rewrite (generate_content_429 post text r Hp Hs).
      destruct (json_ r) as [[| b | q | s | items | fields] | e];
        try (exists unexpected_error_message; simpl; tauto).
      * destruct (PyObj.lookup_field "error" fields) as [[| ? | ? | ? | ? | ?]|];
          try (exists unexpected_error_message; simpl; tauto);
          exists quota_message; simpl; tauto.
      * destruct (is_request_exception e);
          [exists request_error_message | exists unexpected_error_message];
          simpl; tauto.
    + rewrite (generate_content_other_status post text r Hp Hnot Hs).
      exists api_error_message. simpl. tauto.
  - rewrite (generate_content_raise post text e)
      by (unfold generate_content_try; rewrite Hp; reflexivity).
    destruct (is_request_exception e);
      [exists request_error_message | exists unexpected_error_message];
      simpl; tauto.
Qed.

(** X16: a failure of the provider never becomes an error reply. When the
    request carries a non-blank message and a client is configured, and the
    external call fails or is answered with a status other than 200, the
    route still replies 200, and the answer it carries is one of the four
    fixed messages of the client. *)
Theorem chat_answers_200_when_provider_fails
    (a : App) (post : string -> py response) (data : json)
    (message timestamp : string) (w : world) :
  gemini_client a = Some post ->
  PyObj.get data "message" (JStr "") = Ok (JStr message) ->
  PyObj.strip message <> ""%string ->
  (forall r, post (make_prompt (PyObj.strip message)) = Ok r ->
             status_code r <> 200) ->
  exists text,
    In text [quota_message; api_error_message; request_error_message;
             unexpected_error_message]
    /\ (chat a (Ok data) timestamp w).1
       = mkReply 200 (JObj [("user_message", JStr (PyObj.strip message));
                            ("ai_response", JStr text);
                            ("timestamp", JStr timestamp)]).
Proof.
  intros Hclient Hmsg Hnonblank Hfail.
  destruct (generate_content_failure_messages post _ Hfail) as (text & Hin & Hg).
  exists text. split; [exact Hin|].
  unfold chat, chat_try. cbn [py_bind]. rewrite Hmsg.
  cbn [py_bind PyObj.strip_method].
  apply String.eqb_neq in Hnonblank. rewrite Hnonblank, Hclient, Hg.
  reflexivity.
Qed.

Lemma chat_answers_200_when_provider_fails_witness :
  exists text,
    In text [quota_message; api_error_message; request_error_message;
             unexpected_error_message]
    /\ (chat (mkApp (Some (fun _ => Raise RequestException)) false (fun _ _ => Ok tt))
          (Ok (JObj [("message", JStr "Hello")])) "2024-01-01T00:00:00"
          (mkWorld rate_limiter [] [])).1
       = mkReply 200 (JObj [("user_message", JStr (PyObj.strip "Hello"));
                            ("ai_response", JStr text);
                            ("timestamp", JStr "2024-01-01T00:00:00")]).
Proof.
  apply (chat_answers_200_when_provider_fails
           (mkApp (Some (fun _ => Raise RequestException)) false (fun _ _ => Ok tt))
           (fun _ => Raise RequestException)
           (JObj [("message", JStr "Hello")]) "Hello" "2024-01-01T00:00:00"
           (mkWorld rate_limiter [] [])).
  - reflexivity.
  - reflexivity.
  - vm_compute. discriminate.
  - intros r H. discriminate H.
Defined.
